(** * Object placement and scene composition: samplers, scene merge, eval grid

    A shallow embedding of
      - [MujocoManip/models/pegs_task.py]
          ([UniformRandomPegsSampler], [PegsTask]), and
      - [robosuite/environments/sawyer_assembly.py]
          ([SawyerAssembly._get_placement_initializer_for_eval_mode]).

    Python floats are read as real numbers ([R]): every comparison and every
    arithmetic operation of the source is the exact one.  Calls that raise
    are modelled with an explicit result type, and the global numpy random
    stream is an explicit sequence of draws together with a cursor. *)

From Stdlib Require Import Reals Lra Lia.
From stdpp Require Import base list strings gmap.

Local Open Scope R_scope.

(** ** Exceptions and the random stream *)

Inductive exn : Type :=
| RandomizationError (msg : string)
| AssertionError
| ZeroDivisionError
| IndexError
| NameError (name : string).

Inductive result (A : Type) : Type :=
| Ok (a : A)
| Raise (e : exn).
Arguments Ok {A} a.
Arguments Raise {A} e.

(** [g n] is the n-th value handed out by [random_sample()]; numpy promises
    that each of them lies in the half-open interval [0, 1). *)
Definition rng : Type := nat → R.

Definition valid_rng (g : rng) : Prop := ∀ n, 0 <= g n < 1.

(** A computation reads the stream, moves the cursor and may raise.  The
    cursor is returned on both paths: draws made before an exception are
    consumed for good. *)
Definition M (A : Type) : Type := rng → nat → result A * nat.

Definition ret {A} (a : A) : M A := λ _ c, (Ok a, c).

Definition bind {A B} (m : M A) (k : A → M B) : M B :=
  λ g c, match m g c with
         | (Ok a, c') => k a g c'
         | (Raise e, c') => (Raise e, c')
         end.

Definition raise {A} (e : exn) : M A := λ _ c, (Raise e, c).

#[global] Instance M_ret : MRet M := @ret.
#[global] Instance M_bind : MBind M := λ A B k m, bind m k.

Definition random_sample : M R := λ g c, (Ok (g c), S c).

(** [l[i]], which raises [IndexError] out of range. *)
Definition getitem {A} (l : list A) (i : nat) : M A :=
  match l !! i with
  | Some a => mret a
  | None => raise IndexError
  end.

#[global] Instance Rle_decision : RelDecision Rle := Rle_dec.
#[global] Instance Rlt_decision : RelDecision Rlt := Rlt_dec.

(** ** The parts of numpy the sources use *)

Module np.

(** A length-3 float array. *)
Record array3 : Type := Array3 { x_ : R; y_ : R; z_ : R }.

Definition add (a b : array3) : array3 :=
  Array3 (x_ a + x_ b) (y_ a + y_ b) (z_ a + z_ b).

Definition sub (a b : array3) : array3 :=
  Array3 (x_ a - x_ b) (y_ a - y_ b) (z_ a - z_ b).

(** [np.linalg.norm(v, 2)] of a length-3 array. *)
Definition linalg_norm (v : array3) : R :=
  sqrt (x_ v * x_ v + y_ v * y_ v + z_ v * z_ v).

(** [np.random.uniform(low, high)]: [low + (high - low) * random_sample()].
    Nothing is raised when [high < low]. *)
Definition random_uniform (high low : R) : M R :=
  u ← random_sample; mret (low + (high - low) * u).

(** [np.meshgrid(x, y, z)] with the default ['xy'] indexing, each of the
    three outputs flattened by [ravel()]: the arrays have shape
    [(len y, len x, len z)] and are read in row-major order. *)
Definition meshgrid_ravel (x y z : list R) : list R * list R * list R :=
  (y ≫= (λ _, x ≫= (λ xi, (λ _, xi) <$> z)),
   y ≫= (λ yj, x ≫= (λ _, (λ _, yj) <$> z)),
   y ≫= (λ _, x ≫= (λ _, z))).

(** [np.ones((a, b, c))] *)
Definition ones3 (a b c : nat) : list (list (list R)) :=
  replicate a (replicate b (replicate c 1)).

(** A two-dimensional array is the list of its rows; [transpose] swaps its
    two axes. *)
Definition transpose (m : list (list R)) : list (list R) :=
  (λ j, (λ row, default 0 (row !! j)) <$> m)
    <$> seq 0 (length (default [] (head m))).

(** [np.rot90(m, k, axes)] on one plane of the two axes, case by case as
    numpy does it: [k] is reduced modulo 4; 1 is the transpose of the array
    flipped along its second axis, 2 the array flipped along both, 3 the
    transpose flipped along the second axis. *)
Definition rot90_plane (m : list (list R)) (k : nat) : list (list R) :=
  match (k mod 4)%nat with
  | 0%nat => m
  | 1%nat => transpose (reverse <$> m)
  | 2%nat => reverse <$> reverse m
  | _ => reverse <$> transpose m
  end.

(** [np.rot90(a, k, (1, 2))] on a three-dimensional array. *)
Definition rot90 (a : list (list (list R))) (k : nat) : list (list (list R)) :=
  (λ m, rot90_plane m k) <$> a.

End np.

(** ** Object descriptors and XML nodes *)

(** An [xml.etree.ElementTree.Element]: a tag, an attribute dictionary and
    the list of children. *)
#[warnings="-register-all"]
Inductive Element : Type :=
  mkElement { tag : string; attrib : gmap string string; children : list Element }.

(** [e.set(k, v)] *)
Definition Element_set (k v : string) (e : Element) : Element :=
  mkElement (tag e) (<[k := v]> (attrib e)) (children e).

(** [e.append(c)] *)
Definition Element_append (c : Element) (e : Element) : Element :=
  mkElement (tag e) (attrib e) (children e ++ [c]).

(** The accessors of a [MujocoObject] that the task and the sampler call. *)
Record MujocoObject : Type := {
  get_horizontal_radius : R;
  get_bottom_offset : np.array3;
  get_collision : string → bool → Element;
}.

(** ** [RobotiqThreeFingerGripper] *)

Module RobotiqThreeFingerGripper.

Definition init_qpos : list R := replicate 11 0.

Definition joints : list string :=
  [ "palm_finger_1_joint"; "finger_1_joint_1"; "finger_1_joint_2";
    "finger_1_joint_3"; "palm_finger_2_joint"; "finger_2_joint_1";
    "finger_2_joint_2"; "finger_2_joint_3"; "finger_middle_joint_1";
    "finger_middle_joint_2"; "finger_middle_joint_3" ].

Definition dof : nat := 11.

Definition contact_geoms : list string :=
  [ "f1_l0"; "f1_l1"; "f1_l2"; "f1_l3";
    "f2_l0"; "f2_l1"; "f2_l2"; "f2_l3";
    "f3_l0"; "f3_l1"; "f3_l2"; "f3_l3" ].

Definition visualization_sites : list string := ["grip_site"; "grip_site_cylinder"].

(** An action is a float or a one-dimensional array of floats. *)
Inductive Action : Type :=
| Scalar (a : R)
| Array1 (a : list R).

(** The outcome of an array operation that broadcasts its operands. *)
Inductive broadcast (A : Type) : Type :=
| Broadcast (a : A)
| ValueError.
Arguments Broadcast {A} a.
Arguments ValueError {A}.

(** [RobotiqThreeFingerGripperBase.format_action] *)
Definition base_format_action (action : Action) : Action := action.

(** [v * action] for a one-dimensional array [v]: element by element when
    the lengths agree, the single element of either operand stretched over
    the other, an error otherwise. *)
Definition multiply (v : list R) (action : Action) : broadcast (list R) :=
  match action with
  | Scalar a => Broadcast ((λ x, x * a) <$> v)
  | Array1 l =>
      if decide (length l = length v) then Broadcast (zip_with Rmult v l)
      else if decide (length l = 1%nat)
           then Broadcast ((λ x, x * default 0 (head l)) <$> v)
      else if decide (length v = 1%nat)
           then Broadcast ((λ y, default 0 (head v) * y) <$> l)
      else ValueError
  end.

(** [RobotiqThreeFingerGripper.format_action]: [-1 * np.ones(11) * action] *)
Definition format_action (action : Action) : broadcast (list R) :=
  multiply ((λ x, -1 * x) <$> replicate 11 1) action.

End RobotiqThreeFingerGripper.

(** ** [UniformRandomPegsSampler] *)

Module UniformRandomPegsSampler.

Definition quat : Type := R * R * R * R.

Record t : Type := {
  x_range : option (R * R);
  y_range : option (R * R);
  z_range : option (R * R);
  ensure_object_boundary_in_range : bool;
  z_rotation : bool;
  (* set by [setup] *)
  mujoco_objects : list MujocoObject;
  table_top_offset : np.array3;
  table_size : np.array3;
}.

(** The instance as the constructor leaves it.  [__init__] assigns five
    attributes and nothing else: [mujoco_objects], [table_top_offset] and
    [table_size] do not exist before [setup] has run, so no sampling method
    can be called on such an instance. *)
Module Fresh.

Record t : Type := {
  x_range : option (R * R);
  y_range : option (R * R);
  z_range : option (R * R);
  ensure_object_boundary_in_range : bool;
  z_rotation : bool;
}.

End Fresh.

(** The constructor stores its five arguments. *)
Definition __init__ (x_range y_range z_range : option (R * R))
    (ensure_object_boundary_in_range z_rotation : bool) : result Fresh.t :=
  Ok {| Fresh.x_range := x_range; Fresh.y_range := y_range;
        Fresh.z_range := z_range;
        Fresh.ensure_object_boundary_in_range := ensure_object_boundary_in_range;
        Fresh.z_rotation := z_rotation |}.

(** [ObjectPositionSampler.setup(mujoco_objects, table_top_offset, table_size)]
    on an instance that was set up before: the three attributes are
    assigned anew. *)
Definition setup (self : t) (objs : list MujocoObject)
    (table_top_offset table_size : np.array3) : t :=
  {| x_range := x_range self; y_range := y_range self; z_range := z_range self;
     ensure_object_boundary_in_range := ensure_object_boundary_in_range self;
     z_rotation := z_rotation self;
     mujoco_objects := objs;
     table_top_offset := table_top_offset;
     table_size := table_size |}.

(** The same method on an instance fresh from the constructor: the three
    attributes come into being. *)
Definition setup_fresh (self : Fresh.t) (objs : list MujocoObject)
    (table_top_offset table_size : np.array3) : t :=
  {| x_range := Fresh.x_range self; y_range := Fresh.y_range self;
     z_range := Fresh.z_range self;
     ensure_object_boundary_in_range := Fresh.ensure_object_boundary_in_range self;
     z_rotation := Fresh.z_rotation self;
     mujoco_objects := objs;
     table_top_offset := table_top_offset;
     table_size := table_size |}.

(** A sampler object as a caller may hold it: fresh from the constructor,
    or set up already. *)
Inductive instance : Type :=
| BeforeSetup (self : Fresh.t)
| AfterSetup (self : t).

Definition setup_instance (self : instance) (objs : list MujocoObject)
    (table_top_offset table_size : np.array3) : t :=
  match self with
  | BeforeSetup s => setup_fresh s objs table_top_offset table_size
  | AfterSetup s => setup s objs table_top_offset table_size
  end.

Definition sample_x (self : t) (object_horizontal_radius : R) : M R :=
  let x_range :=
    match x_range self with
    | Some r => r
    | None => (- np.x_ (table_size self) / 2, np.x_ (table_size self) / 2)
    end in
  let minimum := Rmin (fst x_range) (snd x_range) in
  let maximum := Rmax (fst x_range) (snd x_range) in
  let '(minimum, maximum) :=
    if ensure_object_boundary_in_range self
    then (minimum + object_horizontal_radius, maximum - object_horizontal_radius)
    else (minimum, maximum) in
  np.random_uniform maximum minimum.

Definition sample_y (self : t) (object_horizontal_radius : R) : M R :=
  let y_range :=
    match y_range self with
    | Some r => r
    | None => (- np.x_ (table_size self) / 2, np.x_ (table_size self) / 2)
    end in
  let minimum := Rmin (fst y_range) (snd y_range) in
  let maximum := Rmax (fst y_range) (snd y_range) in
  let '(minimum, maximum) :=
    if ensure_object_boundary_in_range self
    then (minimum + object_horizontal_radius, maximum - object_horizontal_radius)
    else (minimum, maximum) in
  np.random_uniform maximum minimum.

Definition sample_z (self : t) (object_horizontal_radius : R) : M R :=
  let z_range :=
    match z_range self with
    | Some r => r
    | None => (0, 1)
    end in
  let minimum := Rmin (fst z_range) (snd z_range) in
  let maximum := Rmax (fst z_range) (snd z_range) in
  let '(minimum, maximum) :=
    if ensure_object_boundary_in_range self
    then (minimum + object_horizontal_radius, maximum - object_horizontal_radius)
    else (minimum, maximum) in
  np.random_uniform maximum minimum.

Definition sample_quat (self : t) : M quat :=
  if z_rotation self then
    rot_angle ← np.random_uniform (2 * PI) 0;
    mret (cos (rot_angle / 2), 0, 0, sin (rot_angle / 2))
  else mret (1, 0, 0, 0).

(** The test of line 99: the candidate [pos] of radius [horizontal_radius]
    against one placed pair [(pos2, r)]. *)
Definition collides (pos : np.array3) (horizontal_radius : R)
    (placed : np.array3 * R) : bool :=
  bool_decide (np.linalg_norm (np.sub pos placed.1) <= placed.2 + horizontal_radius)
  && bool_decide (Rabs (np.z_ pos - np.z_ placed.1) < 0.021).

(** [for pos2, r in placed_objects: if ...: location_valid = False; break] *)
Fixpoint location_valid (pos : np.array3) (horizontal_radius : R)
    (placed_objects : list (np.array3 * R)) : bool :=
  match placed_objects with
  | [] => true
  | p :: rest =>
      if collides pos horizontal_radius p then false
      else location_valid pos horizontal_radius rest
  end.

(** The three lists [sample] grows: [pos_arr], [quat_arr], [placed_objects]. *)
Record arrays : Type := Arrays {
  pos_arr : list np.array3;
  quat_arr : list quat;
  placed_objects : list (np.array3 * R);
}.

(** [for i in range(n)]: the retry loop for one object.  [Some] is the
    [success = True; break] exit with the three lists extended, [None]
    the exit with [success] still false. *)
Fixpoint attempts (n : nat) (self : t) (obj_mjcf : MujocoObject)
    (st : arrays) : M (option arrays) :=
  match n with
  | O => mret None
  | S n' =>
      let horizontal_radius := get_horizontal_radius obj_mjcf in
      let bottom_offset := get_bottom_offset obj_mjcf in
      object_x ← sample_x self horizontal_radius;
      object_y ← sample_y self horizontal_radius;
      object_z ← sample_z self 0.01;
      let pos := np.add (np.sub (table_top_offset self) bottom_offset)
                        (np.Array3 object_x object_y object_z) in
      if location_valid pos horizontal_radius (placed_objects st) then
        quat ← sample_quat self;
        mret (Some (Arrays (pos_arr st ++ [pos]) (quat_arr st ++ [quat])
                           (placed_objects st ++ [(pos, horizontal_radius)])))
      else attempts n' self obj_mjcf st
  end.

Definition max_attempts : nat := 5000.

(** The body of [for obj_mjcf in self.mujoco_objects]. *)
Definition place (self : t) (obj_mjcf : MujocoObject) (st : arrays) : M arrays :=
  r ← attempts max_attempts self obj_mjcf st;
  match r with
  | Some st' => mret st'
  | None => raise (RandomizationError "Cannot place all objects on the desk")
  end.

Fixpoint sample_loop (self : t) (objs : list MujocoObject) (st : arrays) : M arrays :=
  match objs with
  | [] => mret st
  | obj_mjcf :: rest => st' ← place self obj_mjcf st; sample_loop self rest st'
  end.

Definition sample (self : t) : M (list np.array3 * list quat) :=
  st ← sample_loop self (mujoco_objects self) (Arrays [] [] []);
  mret (pos_arr st, quat_arr st).

End UniformRandomPegsSampler.


(** ** [PegsTask] *)

Module PegsTask.

(** XML nodes are shared by reference: the node that [merge_objects] keeps
    in [self.objects] is the very node it appends to the world body, and
    [place_objects] mutates it in place.  The nodes live in a store,
    addressed by their index, and both lists hold references. *)
Definition ref : Type := nat.

Record t : Type := {
  nodes : list Element;
  worldbody : list ref;
  asset : Element;
  shelf_offset : np.array3;
  shelf_size : np.array3;
  n_objects : nat;
  mujoco_objects : list (string * MujocoObject);
  objects : list ref;
  max_horizontal_radius : R;
  initializer : UniformRandomPegsSampler.t;
}.

(** Modelled from the spec: [model_util.joint] is not part of the sources;
    the task attaches "a free joint node (named after the object, uniquely,
    with a fixed small damping constant)", an element tagged [joint] that
    carries the keyword arguments of the call as its attributes. *)
Definition joint (name type damping : string) : Element :=
  mkElement "joint"
    (<["name" := name]> (<["type" := type]> (<["damping" := damping]> ∅))) [].

(** A list of floats as [array_to_string] receives it. *)
Definition array3_values (p : np.array3) : list R := [np.x_ p; np.y_ p; np.z_ p].

Definition quat_values (q : UniformRandomPegsSampler.quat) : list R :=
  let '(w, x, y, z) := q in [w; x; y; z].

Section Helpers.

(** [MujocoXML.merge_asset] and [array_to_string] are defined outside the
    sources at hand; the task only passes values through them. *)
Variable merge_asset : Element → MujocoObject → Element.
Variable array_to_string : list R → string.

(** The body of [for obj_name, obj_mjcf in mujoco_objects.items()]. *)
Definition merge_object (self : t) (item : string * MujocoObject) : t :=
  let '(obj_name, obj_mjcf) := item in
  let asset' := merge_asset (asset self) obj_mjcf in
  let obj := get_collision obj_mjcf obj_name true in
  let obj := Element_append (joint obj_name "free" "0.0005") obj in
  let r := length (nodes self) in
  {| nodes := nodes self ++ [obj];
     worldbody := worldbody self ++ [r];
     asset := asset';
     shelf_offset := shelf_offset self;
     shelf_size := shelf_size self;
     n_objects := n_objects self;
     mujoco_objects := mujoco_objects self;
     objects := objects self ++ [r];
     max_horizontal_radius :=
       Rmax (max_horizontal_radius self) (get_horizontal_radius obj_mjcf);
     initializer := initializer self |}.

Definition merge_objects (self : t) (mujoco_objects : list (string * MujocoObject)) : t :=
  let self :=
    {| nodes := nodes self;
       worldbody := worldbody self;
       asset := asset self;
       shelf_offset := shelf_offset self;
       shelf_size := shelf_size self;
       n_objects := length mujoco_objects;
       mujoco_objects := mujoco_objects;
       objects := [];
       max_horizontal_radius := 0;
       initializer := initializer self |} in
  foldl merge_object self mujoco_objects.

Definition set_initializer (self : t) (i : UniformRandomPegsSampler.t) : t :=
  {| nodes := nodes self;
     worldbody := worldbody self;
     asset := asset self;
     shelf_offset := shelf_offset self;
     shelf_size := shelf_size self;
     n_objects := n_objects self;
     mujoco_objects := mujoco_objects self;
     objects := objects self;
     max_horizontal_radius := max_horizontal_radius self;
     initializer := i |}.

(** [__init__], from [merge_objects] on: [self] is the world as
    [merge_arena] and [merge_robot] leave it, with [shelf_offset] and
    [shelf_size] read off the arena. *)
Definition __init__ (self : t) (objs : list (string * MujocoObject))
    (sampler : option UniformRandomPegsSampler.instance) : result t :=
  let self := merge_objects self objs in
  match
    match sampler with
    | Some i => Ok i
    | None =>
        match UniformRandomPegsSampler.__init__ None None None true true with
        | Ok s => Ok (UniformRandomPegsSampler.BeforeSetup s)
        | Raise e => Raise e
        end
    end
  with
  | Raise e => Raise e
  | Ok sampler =>
      let mjcfs := (mujoco_objects self).*2 in
      Ok (set_initializer self
            (UniformRandomPegsSampler.setup_instance sampler mjcfs
               (shelf_offset self) (shelf_size self)))
  end.

Definition set_nodes (self : t) (ns : list Element) : t :=
  {| nodes := ns;
     worldbody := worldbody self;
     asset := asset self;
     shelf_offset := shelf_offset self;
     shelf_size := shelf_size self;
     n_objects := n_objects self;
     mujoco_objects := mujoco_objects self;
     objects := objects self;
     max_horizontal_radius := max_horizontal_radius self;
     initializer := initializer self |}.

(** [for i in range(len(self.objects))], over the indices still to visit. *)
Fixpoint place_loop (idx : list nat) (self : t)
    (pos_arr : list np.array3) (quat_arr : list UniformRandomPegsSampler.quat) : M t :=
  match idx with
  | [] => mret self
  | i :: rest =>
      o ← getitem (objects self) i;
      p ← getitem pos_arr i;
      let self := set_nodes self
        (alter (Element_set "pos" (array_to_string (array3_values p))) o (nodes self)) in
      o ← getitem (objects self) i;
      q ← getitem quat_arr i;
      let self := set_nodes self
        (alter (Element_set "quat" (array_to_string (quat_values q))) o (nodes self)) in
      place_loop rest self pos_arr quat_arr
  end.

(** [place_objects] returns the task as the loop leaves it.  [sample] is
    called before any node is touched, so when it raises the task is the
    one the caller still holds. *)
Definition place_objects (self : t) : M t :=
  r ← UniformRandomPegsSampler.sample (initializer self);
  let '(pos_arr, quat_arr) := r in
  place_loop (seq 0 (length (objects self))) self pos_arr quat_arr.

End Helpers.

End PegsTask.

(** ** [SawyerAssembly]: the placement schedule of the evaluation mode *)

Module SawyerAssembly.

Record t : Type := {
  eval_mode : bool;
  perturb_evals : bool;
}.

(** [(low, high, number of grid points for this dimension)] *)
Definition bounds : Type := R * R * nat.

Definition _grid_bounds_for_eval_mode (self : t) : bounds * bounds * bounds :=
  let x_bounds := (-0.3, 0.2, 3%nat) in
  let y_bounds := (-0.3, 0.2, 3%nat) in
  let z_rot_bounds := (0, 2 * PI, 3%nat) in
  (x_bounds, y_bounds, z_rot_bounds).

(** [a / n] for a float [a] and an int [n]. *)
Definition truediv (a : R) (n : nat) : M R :=
  match n with
  | O => raise ZeroDivisionError
  | _ => mret (a / INR n)
  end.

(** [t % n] on non-negative ints. *)
Definition mod_ (t n : nat) : M nat :=
  match n with
  | O => raise ZeroDivisionError
  | _ => mret (t mod n)%nat
  end.

(** [(b[1] - b[0]) / b[2]) / 2.] *)
Definition perturb_size (b : bounds) : M R :=
  let '(lo, hi, n) := b in
  s ← truediv (hi - lo) n; mret (s / 2).

(** The body of [for t in range(round_robin_period)] up to the assignment:
    the triple [(x, y, z)] that is stored at index [t]. *)
Definition schedule_entry (perturb : bool) (sizes : R * R * R)
    (x_grid y_grid z_rotation : list R) (grid_length t : nat) : M (R * R * R) :=
  g_ind ← mod_ t grid_length;
  x ← getitem x_grid g_ind;
  y ← getitem y_grid g_ind;
  z ← getitem z_rotation g_ind;
  if perturb then
    let '(sx, sy, sz) := sizes in
    dx ← np.random_uniform sx (- sx);
    dy ← np.random_uniform sy (- sy);
    dz ← np.random_uniform sz (- sz);
    mret (x + dx, y + dy, z + dz)
  else mret (x, y, z).

(** The loop over [t], writing into the three [final_*_grid] arrays. *)
Fixpoint schedule_loop (ts : list nat) (perturb : bool) (sizes : R * R * R)
    (x_grid y_grid z_rotation : list R) (grid_length : nat)
    (final : list R * list R * list R) : M (list R * list R * list R) :=
  match ts with
  | [] => mret final
  | t :: rest =>
      e ← schedule_entry perturb sizes x_grid y_grid z_rotation grid_length t;
      let '(x, y, z) := e in
      let '(fx, fy, fz) := final in
      schedule_loop rest perturb sizes x_grid y_grid z_rotation grid_length
        (<[t := x]> fx, <[t := y]> fy, <[t := z]> fz)
  end.

Section Grid.

(** [mjcf_utils.range_to_uniform_grid(a, b, n)] is defined outside the
    sources at hand. *)
Variable range_to_uniform_grid : R → R → nat → list R.

(** Lines 185 to 216 of [_get_placement_initializer_for_eval_mode], once
    the three bounds are known: the arrays [final_x_grid], [final_y_grid]
    and [final_z_grid] as the loop over [t] leaves them. *)
Definition placement_schedule (perturb_evals : bool)
    (bnds : bounds * bounds * bounds) : M (list R * list R * list R) :=
  let '(x_bounds, y_bounds, z_rot_bounds) := bnds in
  let x_grid := range_to_uniform_grid x_bounds.1.1 x_bounds.1.2 x_bounds.2 in
  let y_grid := range_to_uniform_grid y_bounds.1.1 y_bounds.1.2 y_bounds.2 in
  let z_rotation := range_to_uniform_grid z_rot_bounds.1.1 z_rot_bounds.1.2 z_rot_bounds.2 in
  let '(x_grid, y_grid, z_rotation) := np.meshgrid_ravel x_grid y_grid z_rotation in
  let grid_length := length x_grid in
  let round_robin_period := grid_length in
  ps ← (if perturb_evals then
          let round_robin_period := (round_robin_period * 100)%nat in
          x_pos_perturb_size ← perturb_size x_bounds;
          y_pos_perturb_size ← perturb_size y_bounds;
          z_rot_perturb_size ← perturb_size z_rot_bounds;
          mret (round_robin_period,
                (x_pos_perturb_size, y_pos_perturb_size, z_rot_perturb_size))
        else mret (round_robin_period, (0, 0, 0)));
  let '(round_robin_period, sizes) := ps in
  let zeros := replicate round_robin_period 0 in
  schedule_loop (seq 0 round_robin_period) perturb_evals sizes
    x_grid y_grid z_rotation grid_length (zeros, zeros, zeros).

(** The method itself.  Its last statement,
    [self.placement_initializer = RoundRobinSampler(...)], looks up a name
    the module never binds: the file imports [TableTopTask] and
    [UniformRandomSampler] from the tasks package and defines no
    [RoundRobinSampler].  The lookup raises [NameError] after the schedule
    was computed and its draws consumed, so the method has no normal
    exit. *)
Definition _get_placement_initializer_for_eval_mode (self : t) : M () :=
  if eval_mode self then
    final ← placement_schedule (perturb_evals self) (_grid_bounds_for_eval_mode self);
    let '(final_x_grid, final_y_grid, final_z_grid) := final in
    raise (NameError "RoundRobinSampler")
  else raise AssertionError.

End Grid.

(** A contact of the simulation: the ids of the two geoms that touch. *)
Record Contact : Type := { geom1 : nat; geom2 : nat }.

(** [name in names] for the result of [geom_id2name], which is [None] for
    a geom without a name. *)
Definition name_in (name : option string) (names : list string) : bool :=
  match name with
  | Some n => bool_decide (n ∈ names)
  | None => false
  end.

(** [for contact in ...: if ...: collision = True; break] *)
Fixpoint contact_loop (geom_id2name : nat → option string)
    (contact_geoms : list string) (contacts : list Contact) : bool :=
  match contacts with
  | [] => false
  | contact :: rest =>
      if name_in (geom_id2name (geom1 contact)) contact_geoms
         || name_in (geom_id2name (geom2 contact)) contact_geoms
      then true
      else contact_loop geom_id2name contact_geoms rest
  end.

(** [_check_contact], given the name table of the model, the contact geoms
    of the gripper, the contact buffer and the number [ncon] of its valid
    entries. *)
Definition _check_contact (geom_id2name : nat → option string)
    (contact_geoms : list string) (contact : list Contact) (ncon : nat) : bool :=
  contact_loop geom_id2name contact_geoms (take ncon contact).

(** Python's own [random] module: [s n] is the value its n-th call
    returns. *)
Definition MI (A : Type) : Type := (nat → nat) → nat → result A * nat.

Definition MI_ret {A} (a : A) : MI A := λ _ c, (Ok a, c).

Definition MI_bind {A B} (m : MI A) (k : A → MI B) : MI B :=
  λ s c, match m s c with
         | (Ok a, c') => k a s c'
         | (Raise e, c') => (Raise e, c')
         end.

#[global] Instance MI_mret : MRet MI := @MI_ret.
#[global] Instance MI_mbind : MBind MI := λ A B k m, MI_bind m k.

#[global] Instance result_mret : MRet result := @Ok.
#[global] Instance result_mbind : MBind result :=
  λ A B k m, match m with Ok a => k a | Raise e => Raise e end.

Definition lift {A} (r : result A) : MI A := λ _ c, (r, c).

(** [random.randint(a, b)]: the next value of the stream, which Python
    takes from [a, b], both ends included. *)
Definition randint (a b : nat) : MI nat := λ s c, (Ok (s c), S c).

(** [l[i]] *)
Definition index {A} (l : list A) (i : nat) : result A :=
  match l !! i with
  | Some a => Ok a
  | None => Raise IndexError
  end.

(** [grid[z][y][x] = v] on a numpy array *)
Definition setitem3 (grid : list (list (list R))) (z y x : nat) (v : R)
    : result (list (list (list R))) :=
  plane ← index grid z;
  row ← index plane y;
  _ ← index row x;
  mret (<[z := <[y := <[x := v]> row]> plane]> grid).

(** [for i in range(n): state = body(i, state)] *)
Fixpoint for_each {S} (l : list nat) (body : nat → S → result S) (s : S)
    : result S :=
  match l with
  | [] => Ok s
  | i :: rest => s' ← body i s; for_each rest body s'
  end.

(** The three nested loops of [lego_sample] that write [hole] into [grid]
    at the two offsets. *)
Definition cut_hole (hole grid : list (list (list R))) (offset_x offset_y : nat)
    : result (list (list (list R))) :=
  for_each (seq 0 (length hole)) (λ z grid,
    hole_0 ← index hole 0%nat;
    for_each (seq 0 (length hole_0)) (λ y grid,
      hole_0 ← index hole 0%nat;
      hole_00 ← index hole_0 0%nat;
      for_each (seq 0 (length hole_00)) (λ x grid,
        hole_z ← index hole z;
        hole_zy ← index hole_z y;
        v ← index hole_zy x;
        setitem3 grid z (offset_y + y) (offset_x + x) v) grid) grid) grid.

Definition lego_sample
    : MI (list (list (list R)) * list (list (list R)) * list (list (list R))) :=
  let blocks : list (list R) := [[1; 1; 1]; [1; 0; 1]; [1; 1; 0]; [1; 0; 0]] in
  let hole_side : list (list R) := [[0; 0; 0]; [0; 0.95; 0]; [0; 0; 1]; [0; 1; 1]] in
  let hole : list (list (list R)) := [[[0; 0; 0]; [0; 0; 0]; [0; 0; 0]]] in
  pick ← randint 0 (length blocks - 1);
  side1 ← lift (index blocks pick);
  hole1 ← lift (index hole_side pick);
  pick ← randint 0 (length blocks - 1);
  side2 ← lift (index blocks pick);
  hole2 ← lift (index hole_side pick);
  let block1 : list (list (list R)) :=
    [ [[1; 1; 1]; [1; 1; 1]; [1; 1; 1]];
      [[0; 0; 0]; [0.9; 0.9; 0.9]; [0; 0; 0]];
      [[0; 0; 0]; [0.9; 0.9; 0.9]; [0; 0; 0]] ] in
  let block1 := alter (λ layer, <[0%nat := side1]> layer) 0%nat block1 in
  let block1 := alter (λ layer, <[2%nat := side2]> layer) 0%nat block1 in
  let hole := alter (λ layer, <[0%nat := hole1]> layer) 0%nat hole in
  let hole := alter (λ layer, <[2%nat := hole2]> layer) 0%nat hole in
  let grid_x := 8%nat in
  let grid_z := 1%nat in
  let grid := np.ones3 grid_z grid_x grid_x in
  offset_x ← randint 1 (grid_x - 4);
  offset_y ← randint 1 (grid_x - 3);
  grid ← lift (cut_hole hole grid offset_x offset_y);
  k ← randint 0 3;
  let grid := np.rot90 grid k in
  let block2 : list (list (list R)) :=
    [ [[1; 1; 1]; [0; 0; 0]; [1; 1; 1]];
      [[1; 1; 1]; [0; 0; 0]; [1; 1; 1]];
      [[1; 1; 1]; [1; 1; 1]; [1; 1; 1]];
      [[0; 0; 0]; [0; 1; 0]; [0; 0; 0]] ] in
  mret (block1, block2, grid).

End SawyerAssembly.


(** ** Reading the sampler: ranges, draws and candidates

    The quantities the statements below speak about, spelled out once. *)

Module Spec.

Import UniformRandomPegsSampler.

(** [(min(range), max(range))] of a configured range, or of the fallback
    when the range is [None]. *)
Definition active_range (configured : option (R * R)) (fallback : R * R) : R * R :=
  let r := default fallback configured in (Rmin r.1 r.2, Rmax r.1 r.2).

(** The ranges the three axis samplers work on, with the fallbacks the
    code uses. *)
Definition x_active (self : t) : R * R :=
  active_range (x_range self)
    (- np.x_ (table_size self) / 2, np.x_ (table_size self) / 2).

Definition y_active (self : t) : R * R :=
  active_range (y_range self)
    (- np.x_ (table_size self) / 2, np.x_ (table_size self) / 2).

Definition z_active (self : t) : R * R :=
  active_range (z_range self) (0, 1).

(** The interval handed to [np.random.uniform] for a shrink margin [r]. *)
Definition drawn_interval (self : t) (range : R * R) (r : R) : R * R :=
  if ensure_object_boundary_in_range self
  then (range.1 + r, range.2 - r) else range.

(** The value [np.random.uniform] makes of the draw [u]. *)
Definition draw (self : t) (range : R * R) (r u : R) : R :=
  let i := drawn_interval self range r in i.1 + (i.2 - i.1) * u.

(** The candidate position built from the three draws at cursor [c]. *)
Definition candidate (self : t) (obj : MujocoObject) (g : rng) (c : nat) : np.array3 :=
  np.add (np.sub (table_top_offset self) (get_bottom_offset obj))
    (np.Array3 (draw self (x_active self) (get_horizontal_radius obj) (g c))
               (draw self (y_active self) (get_horizontal_radius obj) (g (S c)))
               (draw self (z_active self) 0.01 (g (S (S c))))).

(** The orientation [sample_quat] returns at cursor [c]. *)
Definition orientation (self : t) (g : rng) (c : nat) : quat :=
  if z_rotation self
  then (cos ((0 + (2 * PI - 0) * g c) / 2), 0, 0, sin ((0 + (2 * PI - 0) * g c) / 2))
  else (1, 0, 0, 0).

(** The cursor after [sample_quat]. *)
Definition after_orientation (self : t) (c : nat) : nat :=
  if z_rotation self then S c else c.

(** The Euclidean norm of a quaternion. *)
Definition quat_norm (q : quat) : R :=
  let '(w, x, y, z) := q in sqrt (w * w + x * x + y * y + z * z).

(** The distance of two positions in the horizontal plane. *)
Definition horizontal_distance (a b : np.array3) : R :=
  sqrt ((np.x_ a - np.x_ b) * (np.x_ a - np.x_ b)
        + (np.y_ a - np.y_ b) * (np.y_ a - np.y_ b)).

(** The lists of [sample] after one more object was put down. *)
Definition extend (st : arrays) (pos : np.array3) (q : quat) (r : R) : arrays :=
  Arrays (pos_arr st ++ [pos]) (quat_arr st ++ [q]) (placed_objects st ++ [(pos, r)]).

(** Candidate number [k] of the retry loop started at cursor [c] is
    rejected against [placed]. *)
Definition rejected (self : t) (obj : MujocoObject) (placed : list (np.array3 * R))
    (g : rng) (c k : nat) : Prop :=
  location_valid (candidate self obj g (c + 3 * k)%nat)
    (get_horizontal_radius obj) placed = false.

(** No later entry of [placed] collides with an earlier one. *)
Definition separated (placed : list (np.array3 * R)) : Prop :=
  ∀ i j p q, (i < j)%nat → placed !! i = Some p → placed !! j = Some q →
    Rabs (np.z_ q.1 - np.z_ p.1) < 0.021 →
    np.linalg_norm (np.sub q.1 p.1) > p.2 + q.2.

(** The node [merge_objects] builds for one entry of the mapping: the
    collision fragment with the free joint appended. *)
Definition object_node (item : string * MujocoObject) : Element :=
  Element_append (PegsTask.joint item.1 "free" "0.0005")
    (get_collision item.2 item.1 true).

(** A node after [place_objects] wrote a position and an orientation. *)
Definition posed (array_to_string : list R → string) (p : np.array3) (q : quat)
    (e : Element) : Element :=
  Element_set "quat" (array_to_string (PegsTask.quat_values q))
    (Element_set "pos" (array_to_string (PegsTask.array3_values p)) e).

(** The value stored for the base grid value [base] and the draw [u]:
    [base + np.random.uniform(low=-size, high=size)] under perturbation,
    [base] itself otherwise. *)
Definition perturbed (perturb : bool) (size base u : R) : R :=
  if perturb then base + (- size + (size - - size) * u) else base.

(** The number of entries of the schedule for a base cycle of length [L]. *)
Definition period (perturb : bool) (L : nat) : nat :=
  if perturb then (L * 100)%nat else L.

(** The number of draws the schedule consumes. *)
Definition schedule_draws (perturb : bool) (L : nat) : nat :=
  if perturb then (3 * (L * 100))%nat else 0%nat.

(** [((hi - lo) / n) / 2.] *)
Definition half_spacing (b : SawyerAssembly.bounds) : R :=
  (b.1.2 - b.1.1) / INR b.2 / 2.

(** The two tables of [lego_sample]: the sides a block can have, and the
    row of the hole that goes with each. *)
Definition block_sides : list (list R) :=
  [[1; 1; 1]; [1; 0; 1]; [1; 1; 0]; [1; 0; 0]].

Definition hole_sides : list (list R) :=
  [[0; 0; 0]; [0; 0.95; 0]; [0; 0; 1]; [0; 1; 1]].

(** An 8 x 8 plane of ones into which the three rows of [hole] are written
    with their first cell at row [oy], column [ox]. *)
Definition window_grid (hole : list (list R)) (ox oy : nat) : list (list R) :=
  (λ Y, (λ X, if (oy <=? Y)%nat && (Y <? oy + 3)%nat
                 && (ox <=? X)%nat && (X <? ox + 3)%nat
              then default 0 (default [] (hole !! (Y - oy)%nat) !! (X - ox)%nat)
              else 1) <$> seq 0 8) <$> seq 0 8.

(** The five values [lego_sample] draws lie in the ranges it asks for. *)
Definition valid_lego_draws (s : nat → nat) (c : nat) : Prop :=
  (s c ≤ 3)%nat ∧ (s (1 + c) ≤ 3)%nat
  ∧ (1 ≤ s (2 + c) ≤ 4)%nat ∧ (1 ≤ s (3 + c) ≤ 5)%nat
  ∧ (s (4 + c) ≤ 3)%nat.

(** A plane of [n] rows of [n] cells. *)
Definition square (n : nat) (m : list (list R)) : Prop :=
  length m = n ∧ Forall (λ row, length row = n) m.

End Spec.

(** ** Concrete configurations

    The inputs at which the statements below are evaluated. *)

Module Examples.

Import UniformRandomPegsSampler.

(** A peg of the given horizontal radius whose origin is its contact point. *)
Definition peg (radius : R) : MujocoObject :=
  {| get_horizontal_radius := radius;
     get_bottom_offset := np.Array3 0 0 0;
     get_collision := λ name _, mkElement "body" (<["name" := name]> ∅) [] |}.

Definition origin : np.array3 := np.Array3 0 0 0.

(** Two pegs of radius 0.02 on the unit square, heights in [0, 0.04],
    centres drawn from the whole range, no rotation. *)
Definition two_pegs : t :=
  {| x_range := Some (0, 1); y_range := Some (0, 1); z_range := Some (0, 0.04);
     ensure_object_boundary_in_range := false; z_rotation := false;
     mujoco_objects := [peg 0.02; peg 0.02];
     table_top_offset := origin;
     table_size := np.Array3 0.8 0.8 0.8 |}.

(** Every draw is 0. *)
Definition g_zero : rng := λ _, 0.

(** The second peg is drawn 0.039 to the side of and 0.02 above the first. *)
Definition g_near : rng :=
  λ n, match n with
       | 3%nat => 0.039
       | 5%nat => 0.5
       | _ => 0
       end.

(** The second peg is drawn half a unit to the side of the first. *)
Definition g_far : rng :=
  λ n, match n with
       | 3%nat => 0.5
       | _ => 0
       end.

(** The region of section 8 of the specification: x in [-0.01, 0.01], one
    peg of radius 0.05, boundary inclusion enabled. *)
Definition narrow : t :=
  {| x_range := Some (-0.01, 0.01); y_range := None; z_range := None;
     ensure_object_boundary_in_range := true; z_rotation := false;
     mujoco_objects := [peg 0.05];
     table_top_offset := origin;
     table_size := np.Array3 0.8 0.8 0.8 |}.

(** A roomy region with boundary inclusion enabled. *)
Definition roomy : t :=
  {| x_range := Some (0, 1); y_range := Some (0, 1); z_range := None;
     ensure_object_boundary_in_range := true; z_rotation := true;
     mujoco_objects := [peg 0.02];
     table_top_offset := origin;
     table_size := np.Array3 0.8 0.8 0.8 |}.

(** A table 0.8 long and 0.4 wide, no configured ranges. *)
Definition oblong : t :=
  {| x_range := None; y_range := None; z_range := None;
     ensure_object_boundary_in_range := false; z_rotation := false;
     mujoco_objects := [peg 0.02];
     table_top_offset := origin;
     table_size := np.Array3 0.8 0.4 0.8 |}.

(** A grid of [n] evenly spaced points starting at [a]. *)
Definition even_grid (a b : R) (n : nat) : list R :=
  (λ i, a + (b - a) * INR i / INR n) <$> seq 0 n.


(** The world before any object is merged. *)
Definition bare_world : PegsTask.t :=
  {| PegsTask.nodes := [];
     PegsTask.worldbody := [];
     PegsTask.asset := mkElement "asset" ∅ [];
     PegsTask.shelf_offset := origin;
     PegsTask.shelf_size := np.Array3 0.8 0.8 0.8;
     PegsTask.n_objects := 0;
     PegsTask.mujoco_objects := [];
     PegsTask.objects := [];
     PegsTask.max_horizontal_radius := 0;
     PegsTask.initializer := narrow |}.

(** Stand-ins for the two helpers the task is parametrised by. *)
Definition keep_asset (a : Element) (_ : MujocoObject) : Element := a.

(** A peg whose origin lies 0.3 above its contact point. *)
Definition raised_peg (radius : R) : MujocoObject :=
  {| get_horizontal_radius := radius;
     get_bottom_offset := np.Array3 0 0 (-0.3);
     get_collision := λ name _, mkElement "body" (<["name" := name]> ∅) [] |}.

(** The configuration of [two_pegs] as the constructor leaves it. *)
Definition unit_square : Fresh.t :=
  {| Fresh.x_range := Some (0, 1); Fresh.y_range := Some (0, 1);
     Fresh.z_range := Some (0, 0.04);
     Fresh.ensure_object_boundary_in_range := false;
     Fresh.z_rotation := false |}.

(** The unit square set up for a peg and a raised peg. *)
Definition mixed_pegs : t :=
  setup_fresh unit_square [peg 0.02; raised_peg 0.02] origin (np.Array3 0.8 0.8 0.8).

(** A stand-in for [array_to_string] that tells arrays apart: one character
    per entry, [+] for an entry of at least 0.25 and [-] for a smaller one. *)
Fixpoint sign_string (l : list R) : string :=
  match l with
  | [] => ""
  | v :: rest =>
      String.append (if bool_decide (0.25 <= v) then "+" else "-")
        (sign_string rest)
  end.

Definition count_values (l : list R) : string :=
  match length l with
  | 3%nat => "xyz"
  | 4%nat => "wxyz"
  | _ => ""
  end.

(** The bare world after one peg was merged and the sampler of the narrow
    region set up for it. *)
Definition one_peg_task : PegsTask.t :=
  PegsTask.set_initializer
    (PegsTask.merge_objects keep_asset bare_world [("peg", peg 0.05)])
    (setup narrow [peg 0.05] origin (np.Array3 0.8 0.8 0.8)).

(** The same task after its sampler was set up again without objects. *)
Definition stale_task : PegsTask.t :=
  PegsTask.set_initializer one_peg_task
    (setup narrow [] origin (np.Array3 0.8 0.8 0.8)).

(** Draws for [lego_sample]: sides 1 and 3, the hole at column 2 and
    row 5, one quarter turn. *)
Definition lego_draws : nat → nat :=
  λ n, match n with
       | 0%nat => 1%nat
       | 1%nat => 3%nat
       | 2%nat => 2%nat
       | 3%nat => 5%nat
       | _ => 1%nat
       end.

(** A model whose geoms 0 to 2 are the floor and two finger links. *)
Definition geom_names : nat → option string :=
  λ n, match n with
       | 0%nat => Some "floor"
       | 1%nat => Some "f1_l0"
       | 2%nat => Some "f2_l3"
       | _ => None
       end.

End Examples.

(** ** Running the axis samplers *)

Import UniformRandomPegsSampler Spec.

Ltac run_monad :=
  unfold mbind, M_bind, bind, mret, M_ret, ret, raise,
    np.random_uniform, random_sample.

Lemma bind_ok {A B} (m : M A) (k : A → M B) g c a c' :
  m g c = (Ok a, c') → (x ← m; k x) g c = k a g c'.
Proof. intros H. run_monad. by rewrite H. Qed.

Lemma bind_raise {A B} (m : M A) (k : A → M B) g c e c' :
  m g c = (Raise e, c') → (x ← m; k x) g c = (Raise e, c').
Proof. intros H. run_monad. by rewrite H. Qed.

Lemma sample_x_run self r g c :
  sample_x self r g c = (Ok (draw self (x_active self) r (g c)), S c).
Proof.
  unfold sample_x, draw, drawn_interval, x_active, active_range.
  destruct (x_range self) as [[a b]|], (ensure_object_boundary_in_range self);
    reflexivity.
Qed.

Lemma sample_y_run self r g c :
  sample_y self r g c = (Ok (draw self (y_active self) r (g c)), S c).
Proof.
  unfold sample_y, draw, drawn_interval, y_active, active_range.
  destruct (y_range self) as [[a b]|], (ensure_object_boundary_in_range self);
    reflexivity.
Qed.

Lemma sample_z_run self r g c :
  sample_z self r g c = (Ok (draw self (z_active self) r (g c)), S c).
Proof.
  unfold sample_z, draw, drawn_interval, z_active, active_range.
  destruct (z_range self) as [[a b]|], (ensure_object_boundary_in_range self);
    reflexivity.
Qed.

Lemma sample_quat_run self g c :
  sample_quat self g c = (Ok (orientation self g c), after_orientation self c).
Proof.
  unfold sample_quat, orientation, after_orientation.
  destruct (z_rotation self); reflexivity.
Qed.

Lemma active_range_ordered o d : (active_range o d).1 <= (active_range o d).2.
Proof.
  unfold active_range. simpl.
  pose proof (Rmin_l (default d o).1 (default d o).2).
  pose proof (Rmax_l (default d o).1 (default d o).2). lra.
Qed.

(** One turn of the retry loop. *)
Lemma attempts_S n self obj st g c :
  attempts (S n) self obj st g c =
    if location_valid (candidate self obj g c) (get_horizontal_radius obj)
         (placed_objects st)
    then (Ok (Some (extend st (candidate self obj g c)
                      (orientation self g (3 + c)%nat) (get_horizontal_radius obj))),
          after_orientation self (3 + c)%nat)
    else attempts n self obj st g (3 + c)%nat.
Proof.
  cbn [attempts].
  rewrite (bind_ok _ _ _ _ _ _ (sample_x_run _ _ _ _)).
  rewrite (bind_ok _ _ _ _ _ _ (sample_y_run _ _ _ _)).
  rewrite (bind_ok _ _ _ _ _ _ (sample_z_run _ _ _ _)).
  fold (candidate self obj g c).
  destruct (location_valid _ _ _); [|reflexivity].
  rewrite (bind_ok _ _ _ _ _ _ (sample_quat_run _ _ _)). reflexivity.
Qed.

(** ** The retry loop *)

Lemma rejected_shift self obj placed g c k :
  rejected self obj placed g (3 + c) k ↔ rejected self obj placed g c (S k).
Proof.
  unfold rejected.
  by replace (3 + c + 3 * k)%nat with (c + 3 * S k)%nat by lia.
Qed.

(** Either some candidate [k < n] is the first valid one and the loop
    leaves with it, or all [n] candidates are rejected and [3 * n] draws
    are gone. *)
Lemma attempts_cases n self obj st g c :
  (∃ k, (k < n)%nat
     ∧ (∀ k', (k' < k)%nat → rejected self obj (placed_objects st) g c k')
     ∧ location_valid (candidate self obj g (c + 3 * k)%nat)
         (get_horizontal_radius obj) (placed_objects st) = true
     ∧ attempts n self obj st g c =
         (Ok (Some (extend st (candidate self obj g (c + 3 * k)%nat)
                      (orientation self g (c + 3 * k + 3)%nat)
                      (get_horizontal_radius obj))),
          after_orientation self (c + 3 * k + 3)%nat))
  ∨ ((∀ k, (k < n)%nat → rejected self obj (placed_objects st) g c k)
     ∧ attempts n self obj st g c = (Ok None, (c + 3 * n)%nat)).
Proof.
  revert c. induction n as [|n IH]; intros c.
  - right. split; [intros k Hk; lia|].
    cbn. run_monad. f_equal. lia.
  - rewrite attempts_S.
    destruct (location_valid (candidate self obj g c) _ _) eqn:Hv.
    + left. exists 0%nat.
      replace (c + 3 * 0)%nat with c by lia.
      replace (c + 3)%nat with (3 + c)%nat by lia.
      repeat split; [lia | intros k' Hk'; lia | exact Hv].
    + destruct (IH (3 + c)%nat) as [(k & Hk & Hrej & Hval & Hrun)|[Hrej Hrun]].
      * left. exists (S k).
        replace (c + 3 * S k)%nat with (3 + c + 3 * k)%nat by lia.
        repeat split; [lia | | exact Hval | exact Hrun].
        intros [|k'] Hk'.
        -- unfold rejected. by replace (c + 3 * 0)%nat with c by lia.
        -- apply rejected_shift, Hrej. lia.
      * right. split.
        -- intros [|k] Hk.
           ++ unfold rejected. by replace (c + 3 * 0)%nat with c by lia.
           ++ apply rejected_shift, Hrej. lia.
        -- rewrite Hrun. f_equal. lia.
Qed.

Lemma place_cases self obj st g c :
  (∃ k, (k < max_attempts)%nat
     ∧ (∀ k', (k' < k)%nat → rejected self obj (placed_objects st) g c k')
     ∧ location_valid (candidate self obj g (c + 3 * k)%nat)
         (get_horizontal_radius obj) (placed_objects st) = true
     ∧ place self obj st g c =
         (Ok (extend st (candidate self obj g (c + 3 * k)%nat)
                (orientation self g (c + 3 * k + 3)%nat)
                (get_horizontal_radius obj)),
          after_orientation self (c + 3 * k + 3)%nat))
  ∨ ((∀ k, (k < max_attempts)%nat → rejected self obj (placed_objects st) g c k)
     ∧ place self obj st g c =
         (Raise (RandomizationError "Cannot place all objects on the desk"),
          (c + 3 * max_attempts)%nat)).
Proof.
  unfold place.
  destruct (attempts_cases max_attempts self obj st g c)
    as [(k & Hk & Hrej & Hval & Hrun)|[Hrej Hrun]].
  - left. exists k. repeat split; try done.
    by rewrite (bind_ok _ _ _ _ _ _ Hrun).
  - right. split; [done|].
    by rewrite (bind_ok _ _ _ _ _ _ Hrun).
Qed.

Lemma place_all_rejected self obj st g c :
  (∀ k, (k < max_attempts)%nat → rejected self obj (placed_objects st) g c k) →
  place self obj st g c =
    (Raise (RandomizationError "Cannot place all objects on the desk"),
     (c + 3 * max_attempts)%nat).
Proof.
  intros Hall.
  destruct (place_cases self obj st g c) as [(k & Hk & _ & Hval & _)|[_ Hrun]];
    [|done].
  specialize (Hall k Hk). unfold rejected in Hall. congruence.
Qed.

Lemma place_first_valid self obj st g c :
  location_valid (candidate self obj g c) (get_horizontal_radius obj)
    (placed_objects st) = true →
  place self obj st g c =
    (Ok (extend st (candidate self obj g c) (orientation self g (3 + c)%nat)
           (get_horizontal_radius obj)),
     after_orientation self (3 + c)%nat).
Proof.
  intros Hv. unfold place.
  assert (max_attempts = S 4999) as -> by reflexivity.
  erewrite bind_ok; [|rewrite attempts_S, Hv; reflexivity].
  reflexivity.
Qed.

Lemma sample_loop_app self pre post st g c :
  sample_loop self (pre ++ post) st g c =
    (st' ← sample_loop self pre st; sample_loop self post st') g c.
Proof.
  revert st c. induction pre as [|o pre IH]; intros st c; [done|].
  cbn [app sample_loop]. run_monad.
  destruct (place self o st g c) as [[st'|e] c']; [|done].
  rewrite IH. by run_monad.
Qed.

(** ** Separation of the placed objects *)

Lemma location_valid_Forall pos hr placed :
  location_valid pos hr placed = true ↔
  Forall (λ p, collides pos hr p = false) placed.
Proof.
  induction placed as [|p placed IH]; cbn [location_valid].
  - split; [constructor | done].
  - destruct (collides pos hr p) eqn:Hc.
    + split; [done | intros H; inversion H; congruence].
    + rewrite IH. split; [by constructor | by inversion 1].
Qed.

Lemma collides_false pos hr p :
  collides pos hr p = false →
  Rabs (np.z_ pos - np.z_ p.1) < 0.021 →
  np.linalg_norm (np.sub pos p.1) > p.2 + hr.
Proof.
  unfold collides. intros Hc Hz.
  apply andb_false_iff in Hc as [Hc|Hc]; apply bool_decide_eq_false in Hc; lra.
Qed.

Lemma collides_true pos hr p :
  np.linalg_norm (np.sub pos p.1) <= p.2 + hr →
  Rabs (np.z_ pos - np.z_ p.1) < 0.021 →
  collides pos hr p = true.
Proof.
  intros H1 H2. unfold collides.
  by rewrite !bool_decide_eq_true_2.
Qed.

Lemma linalg_norm_sub_sym a b :
  np.linalg_norm (np.sub a b) = np.linalg_norm (np.sub b a).
Proof. unfold np.linalg_norm, np.sub. cbn. f_equal. ring. Qed.

Lemma separated_nil : separated [].
Proof. intros i j p q _ H. by rewrite lookup_nil in H. Qed.

Lemma separated_snoc placed pos hr :
  separated placed →
  location_valid pos hr placed = true →
  separated (placed ++ [(pos, hr)]).
Proof.
  intros Hsep Hv i j p q Hij Hi Hj Hz.
  apply location_valid_Forall in Hv.
  destruct (decide (j < length placed)%nat) as [Hlt|Hge].
  - rewrite lookup_app_l in Hi by lia. rewrite lookup_app_l in Hj by lia.
    exact (Hsep i j p q Hij Hi Hj Hz).
  - assert (j = length placed) as ->.
    { apply lookup_lt_Some in Hj. rewrite length_app in Hj. cbn in Hj. lia. }
    rewrite lookup_app_l in Hi by lia.
    rewrite list_lookup_middle in Hj by done. injection Hj as <-.
    rewrite Forall_lookup in Hv. specialize (Hv i p Hi).
    cbn [fst snd] in *. by apply collides_false.
Qed.

(** What one run of the loop over [objs] adds to the three lists. *)
Lemma sample_loop_inv self g objs st c st' c' :
  sample_loop self objs st g c = (Ok st', c') →
  ∃ ps qs,
    length ps = length objs ∧ length qs = length objs
    ∧ pos_arr st' = pos_arr st ++ ps
    ∧ quat_arr st' = quat_arr st ++ qs
    ∧ placed_objects st' =
        placed_objects st ++ zip ps (get_horizontal_radius <$> objs)
    ∧ Forall2 (λ o p, ∃ c0, p = candidate self o g c0) objs ps
    ∧ (separated (placed_objects st) → separated (placed_objects st')).
Proof.
  revert st c. induction objs as [|o objs IH]; intros st c Hrun.
  - cbn in Hrun. injection Hrun as <- <-.
    exists [], []. cbn. rewrite !app_nil_r. repeat split; done.
  - cbn [sample_loop] in Hrun.
    destruct (place_cases self o st g c) as [(k & _ & _ & Hval & Hp)|[_ Hp]].
    + rewrite (bind_ok _ _ _ _ _ _ Hp) in Hrun.
      apply IH in Hrun as (ps & qs & Hlp & Hlq & Hpos & Hquat & Hpl & Hcand & Hsep).
      cbn [extend pos_arr quat_arr placed_objects] in *.
      exists (candidate self o g (c + 3 * k)%nat :: ps),
             (orientation self g (c + 3 * k + 3)%nat :: qs).
      cbn [length fmap list_fmap zip zip_with]. repeat split.
      * lia.
      * lia.
      * by rewrite Hpos, <- app_assoc.
      * by rewrite Hquat, <- app_assoc.
      * by rewrite Hpl, <- app_assoc.
      * constructor; [by eexists | done].
      * intros H0. apply Hsep. by apply separated_snoc.
    + rewrite (bind_raise _ _ _ _ _ _ Hp) in Hrun. done.
Qed.

(** A successful [sample] returns one position and one orientation per
    object, in the order of [mujoco_objects]; the positions, paired with
    the radii of their objects, are separated. *)
Lemma sample_ok_inv self g c P Q c' :
  sample self g c = (Ok (P, Q), c') →
  length P = length (mujoco_objects self)
  ∧ length Q = length (mujoco_objects self)
  ∧ Forall2 (λ o p, ∃ c0, p = candidate self o g c0) (mujoco_objects self) P
  ∧ separated (zip P (get_horizontal_radius <$> mujoco_objects self)).
Proof.
  unfold sample. intros Hrun.
  destruct (sample_loop self (mujoco_objects self) (Arrays [] [] []) g c)
    as [[st|e] c1] eqn:Hloop.
  - rewrite (bind_ok _ _ _ _ _ _ Hloop) in Hrun.
    run_monad. injection Hrun as <- <- <-.
    apply sample_loop_inv in Hloop
      as (ps & qs & Hlp & Hlq & Hpos & Hquat & Hpl & Hcand & Hsep).
    cbn in Hpos, Hquat, Hpl.
    rewrite Hpos, Hquat. repeat split; try done.
    rewrite <- Hpl. apply Hsep, separated_nil.
  - by rewrite (bind_raise _ _ _ _ _ _ Hloop) in Hrun.
Qed.

Lemma sample_raise_inv self g c pre obj post st c1 e c2 :
  mujoco_objects self = pre ++ obj :: post →
  sample_loop self pre (Arrays [] [] []) g c = (Ok st, c1) →
  place self obj st g c1 = (Raise e, c2) →
  sample self g c = (Raise e, c2).
Proof.
  intros Hobjs Hpre Hplace. unfold sample. rewrite Hobjs.
  apply bind_raise. rewrite sample_loop_app.
  rewrite (bind_ok _ _ _ _ _ _ Hpre). cbn [sample_loop].
  by apply bind_raise.
Qed.

(** With a single object the first candidate is tested against an empty
    list. *)
Lemma sample_single self obj g c :
  mujoco_objects self = [obj] →
  sample self g c =
    (Ok ([candidate self obj g c], [orientation self g (3 + c)%nat]),
     after_orientation self (3 + c)%nat).
Proof.
  intros Hobjs. unfold sample. rewrite Hobjs.
  assert (sample_loop self [obj] (Arrays [] [] []) g c =
            (Ok (extend (Arrays [] [] []) (candidate self obj g c)
                   (orientation self g (3 + c)%nat) (get_horizontal_radius obj)),
             after_orientation self (3 + c)%nat)) as Hloop.
  { cbn [sample_loop]. erewrite bind_ok; [|by apply place_first_valid].
    reflexivity. }
  by rewrite (bind_ok _ _ _ _ _ _ Hloop).
Qed.

(** ** Claims about [UniformRandomPegsSampler] *)

(** C1 (as amended).  In every successful [sample()], two placed objects
    whose vertical gap is below 0.021 are further apart than the sum of
    their horizontal radii, the distance being the Euclidean norm of the
    difference of the two position vectors, all three coordinates
    included. *)
Theorem placed_pairs_separated self g c P Q c' i j p q oi oj :
  sample self g c = (Ok (P, Q), c') →
  i ≠ j →
  P !! i = Some p → P !! j = Some q →
  mujoco_objects self !! i = Some oi → mujoco_objects self !! j = Some oj →
  Rabs (np.z_ p - np.z_ q) < 0.021 →
  np.linalg_norm (np.sub p q) > get_horizontal_radius oi + get_horizontal_radius oj.
Proof.
  intros Hrun Hij Hp Hq Hoi Hoj Hz.
  apply sample_ok_inv in Hrun as (_ & _ & _ & Hsep).
  assert (Hzi : zip P (get_horizontal_radius <$> mujoco_objects self) !! i
                = Some (p, get_horizontal_radius oi)).
  { rewrite lookup_zip_with, Hp. cbn. by rewrite list_lookup_fmap, Hoi. }
  assert (Hzj : zip P (get_horizontal_radius <$> mujoco_objects self) !! j
                = Some (q, get_horizontal_radius oj)).
  { rewrite lookup_zip_with, Hq. cbn. by rewrite list_lookup_fmap, Hoj. }
  destruct (decide (i < j)%nat) as [Hlt|Hge].
  - pose proof (Hsep i j _ _ Hlt Hzi Hzj) as H. cbn [fst snd] in H.
    rewrite linalg_norm_sub_sym. apply H. by rewrite Rabs_minus_sym.
  - assert (Hlt : (j < i)%nat) by lia.
    pose proof (Hsep j i _ _ Hlt Hzj Hzi) as H. cbn [fst snd] in H.
    specialize (H Hz). lra.
Qed.

(** C2.  Each object gets at most 5000 candidates: either one of the
    first 5000 is accepted, or all 5000 are rejected and [RandomizationError]
    is raised.  The error ends [sample()] whatever objects follow, and
    [place_objects] hands it on to its caller. *)
Theorem retry_bound_then_error self g :
  (∀ obj st c,
     (∃ k, (k < 5000)%nat
        ∧ (∀ k', (k' < k)%nat → rejected self obj (placed_objects st) g c k')
        ∧ location_valid (candidate self obj g (c + 3 * k)%nat)
            (get_horizontal_radius obj) (placed_objects st) = true
        ∧ place self obj st g c =
            (Ok (extend st (candidate self obj g (c + 3 * k)%nat)
                   (orientation self g (c + 3 * k + 3)%nat)
                   (get_horizontal_radius obj)),
             after_orientation self (c + 3 * k + 3)%nat))
     ∨ ((∀ k, (k < 5000)%nat → rejected self obj (placed_objects st) g c k)
        ∧ place self obj st g c =
            (Raise (RandomizationError "Cannot place all objects on the desk"),
             (c + 3 * 5000)%nat)))
  ∧ (∀ c pre obj post st c1,
       mujoco_objects self = pre ++ obj :: post →
       sample_loop self pre (Arrays [] [] []) g c = (Ok st, c1) →
       (∀ k, (k < 5000)%nat → rejected self obj (placed_objects st) g c1 k) →
       sample self g c =
         (Raise (RandomizationError "Cannot place all objects on the desk"),
          (c1 + 3 * 5000)%nat))
  ∧ (∀ array_to_string task c e c',
       PegsTask.initializer task = self →
       sample self g c = (Raise e, c') →
       PegsTask.place_objects array_to_string task g c = (Raise e, c')).
Proof.
  change 5000%nat with max_attempts. split; [|split].
  - intros obj st c. apply place_cases.
  - intros c pre obj post st c1 Hobjs Hpre Hall.
    eapply sample_raise_inv; [done..|]. by apply place_all_rejected.
  - intros ats task c e c' Hinit Hrun.
    unfold PegsTask.place_objects. rewrite Hinit. by apply bind_raise.
Qed.

(** C10.  A sampler with exactly one object succeeds with its first
    candidate, whatever the ranges, the flag and the draws: three draws
    make the position, and the orientation follows. *)
Theorem single_object_first_attempt self obj g c :
  mujoco_objects self = [obj] →
  location_valid (candidate self obj g c) (get_horizontal_radius obj) [] = true
  ∧ sample self g c =
      (Ok ([candidate self obj g c], [orientation self g (3 + c)%nat]),
       after_orientation self (3 + c)%nat).
Proof. intros Hobjs. split; [reflexivity | by apply sample_single]. Qed.

(** ** Ranges and draws *)

Lemma active_range_Some a b d : a <= b → active_range (Some (a, b)) d = (a, b).
Proof.
  intros H. unfold active_range. cbn [from_option Datatypes.id fst snd].
  by rewrite Rmin_left, Rmax_right.
Qed.

Lemma active_range_None a b : a <= b → active_range None (a, b) = (a, b).
Proof.
  intros H. unfold active_range. cbn [from_option Datatypes.id fst snd].
  by rewrite Rmin_left, Rmax_right.
Qed.

(** A draw stays in the interval it is taken from when that interval is
    not inverted. *)
Lemma draw_within self range r u :
  0 <= u < 1 →
  (drawn_interval self range r).1 <= (drawn_interval self range r).2 →
  (drawn_interval self range r).1 <= draw self range r u
    <= (drawn_interval self range r).2.
Proof. intros Hu Hle. unfold draw. cbv zeta. split; nra. Qed.

(** From an inverted interval the draw comes out between the two ends,
    the upper one excluded. *)
Lemma draw_inverted self range r u :
  0 <= u < 1 →
  (drawn_interval self range r).2 < (drawn_interval self range r).1 →
  (drawn_interval self range r).2 < draw self range r u
    <= (drawn_interval self range r).1.
Proof. intros Hu Hlt. unfold draw. cbv zeta. split; nra. Qed.

(** C3 (as amended).  Each axis on its own.  With
    [ensure_object_boundary_in_range] set, the sampled x lies in
    [x_min + radius, x_max - radius] whenever that interval is not empty,
    where [x_min, x_max] is the configured x range put in order, or the x
    extent of the table when none is configured; the sampled y lies in
    [y_min + radius, y_max - radius] of a configured y range under the
    same condition on the y range.  With the flag off the coordinate is
    [min + (max - min) * u] for the draw [u], a point of the unshrunk
    range. *)
Theorem sampled_center_in_range self r g cx cy :
  valid_rng g →
  (∃ x,
     sample_x self r g cx = (Ok x, S cx)
     ∧ if ensure_object_boundary_in_range self
       then (x_active self).1 + r <= (x_active self).2 - r →
            (x_active self).1 + r <= x <= (x_active self).2 - r
       else x = (x_active self).1 + ((x_active self).2 - (x_active self).1) * g cx
            ∧ (x_active self).1 <= x <= (x_active self).2)
  ∧ (∀ a b, y_range self = Some (a, b) →
       ∃ y,
         sample_y self r g cy = (Ok y, S cy)
         ∧ if ensure_object_boundary_in_range self
           then Rmin a b + r <= Rmax a b - r →
                Rmin a b + r <= y <= Rmax a b - r
           else y = Rmin a b + (Rmax a b - Rmin a b) * g cy
                ∧ Rmin a b <= y <= Rmax a b).
Proof.
  intros Hg. split.
  - exists (draw self (x_active self) r (g cx)). split; [apply sample_x_run|].
    pose proof (draw_within self (x_active self) r (g cx) (Hg cx)) as Hx.
    pose proof (active_range_ordered (x_range self)
      (- np.x_ (table_size self) / 2, np.x_ (table_size self) / 2)) as Hox.
    fold (x_active self) in Hox.
    unfold draw, drawn_interval in *.
    destruct (ensure_object_boundary_in_range self); cbn [fst snd] in *.
    + intros Hwide. by apply Hx.
    + split; [done | by apply Hx].
  - intros a b Hy. exists (draw self (y_active self) r (g cy)).
    split; [apply sample_y_run|].
    assert (Hact : y_active self = (Rmin a b, Rmax a b)).
    { unfold y_active, active_range. by rewrite Hy. }
    pose proof (draw_within self (y_active self) r (g cy) (Hg cy)) as Hd.
    pose proof (Rmin_l a b). pose proof (Rmax_l a b).
    unfold draw, drawn_interval in *. rewrite Hact in *.
    destruct (ensure_object_boundary_in_range self); cbn [fst snd] in *.
    + intros Hwide. by apply Hd.
    + split; [done|]. apply Hd. lra.
Qed.

(** The statement at work: a peg of radius 0.02 on the unit square. *)
Lemma sampled_center_in_range_witness :
  valid_rng Examples.g_zero
  ∧ y_range Examples.roomy = Some (0, 1)
  ∧ ∃ x y,
      sample_x Examples.roomy 0.02 Examples.g_zero 0%nat = (Ok x, 1%nat)
      ∧ sample_y Examples.roomy 0.02 Examples.g_zero 1%nat = (Ok y, 2%nat)
      ∧ 0 + 0.02 <= x <= 1 - 0.02 ∧ 0 + 0.02 <= y <= 1 - 0.02.
Proof.
  assert (Hx : x_active Examples.roomy = (0, 1)).
  { unfold x_active. cbn [x_range Examples.roomy]. apply active_range_Some. lra. }
  assert (Hg : valid_rng Examples.g_zero).
  { intros n. unfold Examples.g_zero. lra. }
  split; [exact Hg|]. split; [reflexivity|].
  destruct (sampled_center_in_range Examples.roomy 0.02 Examples.g_zero 0%nat 1%nat Hg)
    as ((x & Hsx & Hinx) & Hy).
  destruct (Hy 0 1 eq_refl) as (y & Hsy & Hiny).
  cbn [ensure_object_boundary_in_range Examples.roomy] in Hinx, Hiny.
  rewrite Hx in Hinx. cbn [fst snd] in Hinx.
  rewrite Rmin_left, Rmax_right in Hiny by lra.
  exists x, y. split; [exact Hsx|]. split; [exact Hsy|].
  split; [apply Hinx; lra | apply Hiny; lra].
Defined.

(** C3, as stated, fails on the region of section 8: the x drawn for a peg
    of radius 0.05 in [-0.01, 0.01] is 0.04, outside
    [x_min + radius, x_max - radius]. *)
Lemma narrow_center_outside :
  ensure_object_boundary_in_range Examples.narrow = true
  ∧ x_active Examples.narrow = (-0.01, 0.01)
  ∧ sample_x Examples.narrow 0.05 Examples.g_zero 0%nat = (Ok 0.04, 1%nat)
  ∧ ¬ (-0.01 + 0.05 <= 0.04 <= 0.01 - 0.05).
Proof.
  assert (Hx : x_active Examples.narrow = (-0.01, 0.01)).
  { unfold x_active. cbn [x_range Examples.narrow]. apply active_range_Some. lra. }
  split; [reflexivity|]. split; [exact Hx|]. split; [|lra].
  rewrite sample_x_run. do 2 f_equal.
  unfold draw, drawn_interval. rewrite Hx.
  cbn [ensure_object_boundary_in_range Examples.narrow fst snd].
  unfold Examples.g_zero. lra.
Qed.

Lemma g_zero_valid : valid_rng Examples.g_zero.
Proof. intros n. unfold Examples.g_zero. lra. Qed.

Lemma narrow_x_active : x_active Examples.narrow = (-0.01, 0.01).
Proof.
  unfold x_active. cbn [x_range Examples.narrow]. apply active_range_Some. lra.
Qed.

Lemma narrow_y_active : y_active Examples.narrow = (-0.4, 0.4).
Proof.
  unfold y_active. cbn [y_range table_size np.x_ Examples.narrow].
  replace (- (0.8) / 2) with (-0.4) by lra. replace (0.8 / 2) with 0.4 by lra.
  apply active_range_None. lra.
Qed.

Lemma narrow_z_active : z_active Examples.narrow = (0, 1).
Proof.
  unfold z_active. cbn [z_range Examples.narrow]. apply active_range_None. lra.
Qed.

Lemma narrow_candidate c :
  candidate Examples.narrow (Examples.peg 0.05) Examples.g_zero c
  = np.Array3 0.04 (-0.35) 0.01.
Proof.
  unfold candidate, draw, drawn_interval.
  rewrite narrow_x_active, narrow_y_active, narrow_z_active.
  cbn [ensure_object_boundary_in_range table_top_offset Examples.narrow
       Examples.peg Examples.origin get_horizontal_radius get_bottom_offset
       fst snd np.add np.sub np.x_ np.y_ np.z_].
  unfold Examples.g_zero, np.add, np.sub, Examples.origin.
  cbn [np.x_ np.y_ np.z_]. f_equal; lra.
Qed.

(** C4 (as amended).  A region narrower than twice the radius, with
    boundary inclusion enabled, raises nothing: [sample_x] returns a value
    between [x_max - radius] (excluded) and [x_min + radius], and
    [sample()] for that object alone returns a position and an
    orientation. *)
Theorem narrow_region_no_error self obj g c :
  valid_rng g →
  mujoco_objects self = [obj] →
  ensure_object_boundary_in_range self = true →
  (x_active self).2 - (x_active self).1 < 2 * get_horizontal_radius obj →
  (∃ x, sample_x self (get_horizontal_radius obj) g c = (Ok x, S c)
        ∧ (x_active self).2 - get_horizontal_radius obj < x
            <= (x_active self).1 + get_horizontal_radius obj)
  ∧ ∃ pos quat c', sample self g c = (Ok ([pos], [quat]), c').
Proof.
  intros Hg Hobjs Hflag Hnarrow. split.
  - eexists. split; [apply sample_x_run|].
    pose proof (draw_inverted self (x_active self) (get_horizontal_radius obj)
                  (g c) (Hg c)) as H.
    unfold draw, drawn_interval in *. rewrite Hflag in *. cbn [fst snd] in *.
    apply H. lra.
  - do 3 eexists. by apply sample_single.
Qed.

(** The statement at work on the region of section 8. *)
Lemma narrow_region_no_error_witness :
  valid_rng Examples.g_zero
  ∧ 0.01 - -0.01 < 2 * 0.05
  ∧ (∃ x, sample_x Examples.narrow 0.05 Examples.g_zero 0%nat = (Ok x, 1%nat)
          ∧ 0.01 - 0.05 < x <= -0.01 + 0.05)
  ∧ ∃ pos quat c',
      sample Examples.narrow Examples.g_zero 0%nat = (Ok ([pos], [quat]), c').
Proof.
  split; [exact g_zero_valid|]. split; [lra|].
  pose proof (narrow_region_no_error Examples.narrow (Examples.peg 0.05)
                Examples.g_zero 0%nat g_zero_valid eq_refl eq_refl) as H.
  rewrite narrow_x_active in H. cbn [fst snd get_horizontal_radius Examples.peg] in H.
  apply H. lra.
Defined.

(** C4, as stated, fails: on the region of section 8 (x in [-0.01, 0.01],
    radius 0.05, boundary inclusion enabled) [sample()] returns the pose of
    the peg after three draws and raises nothing. *)
Lemma narrow_region_sample_succeeds :
  x_range Examples.narrow = Some (-0.01, 0.01)
  ∧ get_horizontal_radius <$> mujoco_objects Examples.narrow = [0.05]
  ∧ ensure_object_boundary_in_range Examples.narrow = true
  ∧ 0.01 - -0.01 < 2 * 0.05
  ∧ sample Examples.narrow Examples.g_zero 0%nat
    = (Ok ([np.Array3 0.04 (-0.35) 0.01], [(1, 0, 0, 0)]), 3%nat).
Proof.
  repeat split; [lra|].
  rewrite (sample_single Examples.narrow (Examples.peg 0.05)) by reflexivity.
  by rewrite narrow_candidate.
Qed.

(** C5 at the failing input: on a table 0.8 long and 0.4 wide with no
    configured range, [sample_y] returns -0.4 for the draw 0, a point
    outside the table's own y extent [-0.2, 0.2]. *)
Lemma sample_y_reads_x_extent :
  y_range Examples.oblong = None
  ∧ table_size Examples.oblong = np.Array3 0.8 0.4 0.8
  ∧ sample_y Examples.oblong 0.02 Examples.g_zero 0%nat = (Ok (-0.4), 1%nat)
  ∧ -0.4 < - np.y_ (table_size Examples.oblong) / 2.
Proof.
  repeat split; [|cbn [table_size np.y_ Examples.oblong]; lra].
  rewrite sample_y_run. do 2 f_equal.
  unfold draw, drawn_interval, y_active.
  cbn [y_range table_size np.x_ ensure_object_boundary_in_range Examples.oblong].
  replace (- (0.8) / 2) with (-0.4) by lra. replace (0.8 / 2) with 0.4 by lra.
  rewrite active_range_None by lra. cbn [fst snd].
  unfold Examples.g_zero. lra.
Qed.



(** The statement at work on the region of section 8. *)
Lemma single_object_first_attempt_witness :
  mujoco_objects Examples.narrow = [Examples.peg 0.05]
  ∧ sample Examples.narrow Examples.g_zero 0%nat =
      (Ok ([candidate Examples.narrow (Examples.peg 0.05) Examples.g_zero 0%nat],
           [orientation Examples.narrow Examples.g_zero 3%nat]), 3%nat).
Proof.
  split; [reflexivity|].
  exact (proj2 (single_object_first_attempt Examples.narrow (Examples.peg 0.05)
                  Examples.g_zero 0%nat eq_refl)).
Defined.

(** ** Two pegs *)

Lemma sqrt_above s a : 0 <= s → s * s < a → s < sqrt a.
Proof.
  intros Hs Ha.
  pose proof (sqrt_lt_1_alt (s * s) a) as H.
  rewrite sqrt_square in H by done. apply H. nra.
Qed.

Lemma two_pegs_candidate g c :
  candidate Examples.two_pegs (Examples.peg 0.02) g c
  = np.Array3 (g c) (g (S c)) (0.04 * g (S (S c))).
Proof.
  unfold candidate, draw, drawn_interval, x_active, y_active, z_active.
  cbn [x_range y_range z_range ensure_object_boundary_in_range table_top_offset
       Examples.two_pegs Examples.peg get_horizontal_radius get_bottom_offset].
  rewrite !active_range_Some by lra.
  unfold np.add, np.sub, Examples.origin. cbn [fst snd np.x_ np.y_ np.z_].
  f_equal; lra.
Qed.

(** Two objects: the second candidate is tested against the first
    position alone. *)
Lemma sample_pair self o1 o2 g c :
  mujoco_objects self = [o1; o2] →
  location_valid (candidate self o2 g (after_orientation self (3 + c)%nat))
    (get_horizontal_radius o2)
    [(candidate self o1 g c, get_horizontal_radius o1)] = true →
  sample self g c =
    (Ok ([candidate self o1 g c;
          candidate self o2 g (after_orientation self (3 + c)%nat)],
         [orientation self g (3 + c)%nat;
          orientation self g (3 + after_orientation self (3 + c)%nat)%nat]),
     after_orientation self (3 + after_orientation self (3 + c)%nat)%nat).
Proof.
  intros Hobjs Hv. unfold sample. rewrite Hobjs.
  set (st1 := extend (Arrays [] [] []) (candidate self o1 g c)
                (orientation self g (3 + c)%nat) (get_horizontal_radius o1)).
  set (c1 := after_orientation self (3 + c)%nat) in *.
  assert (sample_loop self [o1; o2] (Arrays [] [] []) g c =
            (Ok (extend st1 (candidate self o2 g c1)
                   (orientation self g (3 + c1)%nat) (get_horizontal_radius o2)),
             after_orientation self (3 + c1)%nat)) as Hloop.
  { cbn [sample_loop].
    erewrite bind_ok; [|by apply place_first_valid]. fold st1 c1.
    erewrite bind_ok; [|by apply place_first_valid]. reflexivity. }
  by rewrite (bind_ok _ _ _ _ _ _ Hloop).
Qed.

(** The run behind the counterexample to C1. *)
Lemma near_pegs_sample :
  sample Examples.two_pegs Examples.g_near 0%nat
  = (Ok ([np.Array3 0 0 0; np.Array3 0.039 0 0.02], [(1, 0, 0, 0); (1, 0, 0, 0)]),
     6%nat).
Proof.
  assert (H1 : candidate Examples.two_pegs (Examples.peg 0.02) Examples.g_near 0%nat
               = np.Array3 0 0 0).
  { rewrite two_pegs_candidate. cbn [Examples.g_near]. f_equal; lra. }
  assert (H2 : candidate Examples.two_pegs (Examples.peg 0.02) Examples.g_near 3%nat
               = np.Array3 0.039 0 0.02).
  { rewrite two_pegs_candidate. cbn [Examples.g_near]. f_equal; lra. }
  rewrite (sample_pair Examples.two_pegs (Examples.peg 0.02) (Examples.peg 0.02))
    by first
      [ reflexivity
      | cbn [after_orientation z_rotation Examples.two_pegs Nat.add];
        rewrite H1, H2; cbn [location_valid];
        replace (collides _ _ _) with false; [reflexivity|];
        symmetry; unfold collides; apply andb_false_iff; left;
        apply bool_decide_eq_false;
        unfold np.linalg_norm, np.sub;
        cbn [fst snd np.x_ np.y_ np.z_ Examples.peg get_horizontal_radius];
        apply Rlt_not_le, sqrt_above; lra ].
  cbn [after_orientation orientation z_rotation Examples.two_pegs Nat.add].
  by rewrite H1, H2.
Qed.

(** C1, as stated, fails: the two pegs of radius 0.02 are placed at
    (0, 0, 0) and (0.039, 0, 0.02); their vertical gap 0.02 is below 0.021
    and their horizontal distance 0.039 is below the sum 0.04 of the
    radii. *)
Lemma near_pegs_overlap_horizontally :
  sample Examples.two_pegs Examples.g_near 0%nat
  = (Ok ([np.Array3 0 0 0; np.Array3 0.039 0 0.02], [(1, 0, 0, 0); (1, 0, 0, 0)]),
     6%nat)
  ∧ get_horizontal_radius <$> mujoco_objects Examples.two_pegs = [0.02; 0.02]
  ∧ Rabs (np.z_ (np.Array3 0 0 0) - np.z_ (np.Array3 0.039 0 0.02)) < 0.021
  ∧ ¬ (horizontal_distance (np.Array3 0 0 0) (np.Array3 0.039 0 0.02)
       >= 0.02 + 0.02).
Proof.
  split; [exact near_pegs_sample|]. split; [reflexivity|]. split.
  - cbn [np.z_]. rewrite Rabs_left; lra.
  - unfold horizontal_distance. cbn [np.x_ np.y_].
    replace ((0 - 0.039) * (0 - 0.039) + (0 - 0) * (0 - 0))
      with (0.039 * 0.039) by lra.
    rewrite sqrt_square by lra. lra.
Qed.

(** Two pegs that end up half a unit apart. *)
Lemma far_pegs_sample :
  sample Examples.two_pegs Examples.g_far 0%nat
  = (Ok ([np.Array3 0 0 0; np.Array3 0.5 0 0], [(1, 0, 0, 0); (1, 0, 0, 0)]),
     6%nat).
Proof.
  assert (H1 : candidate Examples.two_pegs (Examples.peg 0.02) Examples.g_far 0%nat
               = np.Array3 0 0 0).
  { rewrite two_pegs_candidate. cbn [Examples.g_far]. f_equal; lra. }
  assert (H2 : candidate Examples.two_pegs (Examples.peg 0.02) Examples.g_far 3%nat
               = np.Array3 0.5 0 0).
  { rewrite two_pegs_candidate. cbn [Examples.g_far]. f_equal; lra. }
  rewrite (sample_pair Examples.two_pegs (Examples.peg 0.02) (Examples.peg 0.02))
    by first
      [ reflexivity
      | cbn [after_orientation z_rotation Examples.two_pegs Nat.add];
        rewrite H1, H2; cbn [location_valid];
        replace (collides _ _ _) with false; [reflexivity|];
        symmetry; unfold collides; apply andb_false_iff; left;
        apply bool_decide_eq_false;
        unfold np.linalg_norm, np.sub;
        cbn [fst snd np.x_ np.y_ np.z_ Examples.peg get_horizontal_radius];
        apply Rlt_not_le, sqrt_above; lra ].
  cbn [after_orientation orientation z_rotation Examples.two_pegs Nat.add].
  by rewrite H1, H2.
Qed.

(** The statement at work: two pegs at the same height, half a unit apart. *)
Lemma placed_pairs_separated_witness :
  sample Examples.two_pegs Examples.g_far 0%nat
  = (Ok ([np.Array3 0 0 0; np.Array3 0.5 0 0], [(1, 0, 0, 0); (1, 0, 0, 0)]),
     6%nat)
  ∧ Rabs (np.z_ (np.Array3 0 0 0) - np.z_ (np.Array3 0.5 0 0)) < 0.021
  ∧ np.linalg_norm (np.sub (np.Array3 0 0 0) (np.Array3 0.5 0 0)) > 0.02 + 0.02.
Proof.
  assert (Hz : Rabs (np.z_ (np.Array3 0 0 0) - np.z_ (np.Array3 0.5 0 0)) < 0.021).
  { cbn [np.z_]. rewrite Rabs_right; lra. }
  split; [exact far_pegs_sample|]. split; [exact Hz|].
  refine (placed_pairs_separated Examples.two_pegs Examples.g_far 0%nat _ _ _
            0%nat 1%nat _ _ (Examples.peg 0.02) (Examples.peg 0.02)
            far_pegs_sample _ eq_refl eq_refl eq_refl eq_refl Hz).
  discriminate.
Defined.

(** When every draw is 0 the second peg is always drawn onto the first. *)
Lemma zero_draws_rejected k :
  rejected Examples.two_pegs (Examples.peg 0.02)
    [(np.Array3 0 0 0, 0.02)] Examples.g_zero 3%nat k.
Proof.
  unfold rejected. rewrite two_pegs_candidate. unfold Examples.g_zero.
  replace (0.04 * 0) with 0 by lra.
  cbn [location_valid Examples.peg get_horizontal_radius].
  rewrite collides_true; [reflexivity| |].
  - unfold np.linalg_norm, np.sub. cbn [fst snd np.x_ np.y_ np.z_].
    replace ((0 - 0) * (0 - 0) + (0 - 0) * (0 - 0) + (0 - 0) * (0 - 0))
      with 0 by lra.
    rewrite sqrt_0. lra.
  - cbn [fst np.z_]. rewrite Rabs_right; lra.
Qed.

(** ... after the first peg went down at the origin. *)
Lemma zero_draws_first_peg :
  sample_loop Examples.two_pegs [Examples.peg 0.02] (Arrays [] [] [])
    Examples.g_zero 0%nat
  = (Ok (Arrays [np.Array3 0 0 0] [(1, 0, 0, 0)] [(np.Array3 0 0 0, 0.02)]), 3%nat).
Proof.
  cbn [sample_loop].
  erewrite bind_ok; [|by apply place_first_valid].
  rewrite two_pegs_candidate. unfold Examples.g_zero.
  replace (0.04 * 0) with 0 by lra. reflexivity.
Qed.

(** The failing branch at work: with every draw 0 the second peg never
    finds a place, and [sample()] raises after 3 + 3 * 5000 draws. *)
Lemma retry_bound_then_error_witness :
  (∀ k, (k < 5000)%nat →
     rejected Examples.two_pegs (Examples.peg 0.02)
       [(np.Array3 0 0 0, 0.02)] Examples.g_zero 3%nat k)
  ∧ sample Examples.two_pegs Examples.g_zero 0%nat =
      (Raise (RandomizationError "Cannot place all objects on the desk"),
       (3 + 3 * 5000)%nat).
Proof.
  split; [intros k _; apply zero_draws_rejected|].
  refine (proj1 (proj2 (retry_bound_then_error Examples.two_pegs Examples.g_zero))
            0%nat [Examples.peg 0.02] (Examples.peg 0.02) [] _ 3%nat
            eq_refl zero_draws_first_peg _).
  intros k _. apply zero_draws_rejected.
Defined.

(** ** The evaluation schedule *)

Lemma length_bind_const {A B} (f : A → list B) (l : list A) n :
  (∀ a, length (f a) = n) → length (l ≫= f) = (length l * n)%nat.
Proof.
  intros Hf. induction l as [|a l IH]; [done|].
  rewrite bind_cons, length_app, IH, Hf. cbn [length]. lia.
Qed.

(** Each flattened mesh has one entry per point of the Cartesian product. *)
Lemma meshgrid_ravel_length x y z :
  length (np.meshgrid_ravel x y z).1.1 = (length x * length y * length z)%nat
  ∧ length (np.meshgrid_ravel x y z).1.2 = (length x * length y * length z)%nat
  ∧ length (np.meshgrid_ravel x y z).2 = (length x * length y * length z)%nat.
Proof.
  unfold np.meshgrid_ravel. cbn [fst snd].
  repeat split.
  - rewrite (length_bind_const _ _ (length x * length z)); [lia|].
    intros a. apply length_bind_const. intros b. apply length_fmap.
  - rewrite (length_bind_const _ _ (length x * length z)); [lia|].
    intros a. apply length_bind_const. intros b. apply length_fmap.
  - rewrite (length_bind_const _ _ (length x * length z)); [lia|].
    intros a. by apply length_bind_const.
Qed.

(** The order of the flattened mesh on a small input: x runs inside y, and
    z inside x. *)
Example meshgrid_ravel_order :
  np.meshgrid_ravel [1; 2] [10; 20] [100]
  = ([1; 2; 1; 2], [10; 10; 20; 20], [100; 100; 100; 100]).
Proof. reflexivity. Qed.

Lemma getitem_lookup {A} (l : list A) i a g c :
  l !! i = Some a → getitem l i g c = (Ok a, c).
Proof. intros H. unfold getitem. by rewrite H. Qed.

Lemma mod_run t n g c :
  n ≠ 0%nat → SawyerAssembly.mod_ t n g c = (Ok (t mod n)%nat, c).
Proof. intros Hn. unfold SawyerAssembly.mod_. by destruct n. Qed.

(** One entry of the schedule: the base point of index [t mod L], perturbed
    by the next three draws when perturbation is on. *)
Lemma schedule_entry_run perturb sx sy sz bx by_ bz L t g c x y z :
  L ≠ 0%nat →
  bx !! (t mod L)%nat = Some x →
  by_ !! (t mod L)%nat = Some y →
  bz !! (t mod L)%nat = Some z →
  SawyerAssembly.schedule_entry perturb (sx, sy, sz) bx by_ bz L t g c
  = (Ok (perturbed perturb sx x (g c),
         perturbed perturb sy y (g (S c)),
         perturbed perturb sz z (g (S (S c)))),
     if perturb then (3 + c)%nat else c).
Proof.
  intros HL Hx Hy Hz. unfold SawyerAssembly.schedule_entry.
  rewrite (bind_ok _ _ _ _ _ _ (mod_run t L g c HL)).
  rewrite (bind_ok _ _ _ _ _ _ (getitem_lookup _ _ _ g c Hx)).
  rewrite (bind_ok _ _ _ _ _ _ (getitem_lookup _ _ _ g c Hy)).
  rewrite (bind_ok _ _ _ _ _ _ (getitem_lookup _ _ _ g c Hz)).
  destruct perturb; reflexivity.
Qed.

Lemma base_lookup (b : list R) L t :
  L ≠ 0%nat → length b = L → ∃ x, b !! (t mod L)%nat = Some x.
Proof.
  intros HL Hlen. apply lookup_lt_is_Some. rewrite Hlen.
  by apply Nat.mod_upper_bound.
Qed.

(** The loop over [t = s, ..., s + n - 1] fills exactly these entries. *)
Lemma schedule_loop_seq perturb sx sy sz bx by_ bz L n :
  L ≠ 0%nat → length bx = L → length by_ = L → length bz = L →
  ∀ s fx fy fz g c,
    (s + n ≤ length fx)%nat → (s + n ≤ length fy)%nat → (s + n ≤ length fz)%nat →
    ∃ fx' fy' fz',
      SawyerAssembly.schedule_loop (seq s n) perturb (sx, sy, sz) bx by_ bz L
        (fx, fy, fz) g c
      = (Ok (fx', fy', fz'), (c + (if perturb then 3 * n else 0))%nat)
      ∧ length fx' = length fx ∧ length fy' = length fy ∧ length fz' = length fz
      ∧ (∀ t, (t < s)%nat →
           fx' !! t = fx !! t ∧ fy' !! t = fy !! t ∧ fz' !! t = fz !! t)
      ∧ (∀ i, (i < n)%nat →
           ∃ x y z,
             bx !! ((s + i) mod L)%nat = Some x
             ∧ by_ !! ((s + i) mod L)%nat = Some y
             ∧ bz !! ((s + i) mod L)%nat = Some z
             ∧ fx' !! (s + i)%nat
               = Some (perturbed perturb sx x (g (c + 3 * i)%nat))
             ∧ fy' !! (s + i)%nat
               = Some (perturbed perturb sy y (g (c + 3 * i + 1)%nat))
             ∧ fz' !! (s + i)%nat
               = Some (perturbed perturb sz z (g (c + 3 * i + 2)%nat))).
Proof.
  intros HL Hbx Hby Hbz.
  induction n as [|n IH]; intros s fx fy fz g c Hfx Hfy Hfz.
  - exists fx, fy, fz. cbn [seq SawyerAssembly.schedule_loop].
    split; [run_monad; f_equal; destruct perturb; lia|].
    repeat split; try done. intros i Hi. lia.
  - cbn [seq SawyerAssembly.schedule_loop].
    destruct (base_lookup bx L s HL Hbx) as [x Hx].
    destruct (base_lookup by_ L s HL Hby) as [y Hy].
    destruct (base_lookup bz L s HL Hbz) as [z Hz].
    rewrite (bind_ok _ _ _ _ _ _
               (schedule_entry_run perturb sx sy sz bx by_ bz L s g c x y z
                  HL Hx Hy Hz)).
    cbv beta iota.
    edestruct (IH (S s)
                 (<[s := perturbed perturb sx x (g c)]> fx)
                 (<[s := perturbed perturb sy y (g (S c))]> fy)
                 (<[s := perturbed perturb sz z (g (S (S c)))]> fz)
                 g (if perturb then (3 + c)%nat else c))
      as (fx' & fy' & fz' & Hrun & Hlx & Hly & Hlz & Hold & Hnew).
    { rewrite length_insert. lia. }
    { rewrite length_insert. lia. }
    { rewrite length_insert. lia. }
    exists fx', fy', fz'. rewrite Hrun. split; [f_equal; destruct perturb; lia|].
    rewrite length_insert in Hlx, Hly, Hlz.
    split; [done|]. split; [done|]. split; [done|]. split.
    + intros t Ht. destruct (Hold t) as (H1 & H2 & H3); [lia|].
      rewrite H1, H2, H3. rewrite !list_lookup_insert_ne by lia. done.
    + intros [|i] Hi.
      * replace (s + 0)%nat with s by lia. exists x, y, z.
        destruct (Hold s) as (H1 & H2 & H3); [lia|].
        rewrite H1, H2, H3. rewrite !list_lookup_insert_eq by lia.
        replace (c + 3 * 0)%nat with c by lia.
        replace (c + 1)%nat with (S c) by lia.
        replace (c + 2)%nat with (S (S c)) by lia. done.
      * destruct (Hnew i) as (x' & y' & z' & Hx' & Hy' & Hz' & H1 & H2 & H3); [lia|].
        replace (s + S i)%nat with (S s + i)%nat by lia.
        exists x', y', z'. rewrite H1, H2, H3.
        split; [done|]. split; [done|]. split; [done|].
        destruct perturb; unfold perturbed; [|done].
        replace (3 + c + 3 * i)%nat with (c + 3 * S i)%nat by lia. done.
Qed.

Lemma perturb_size_run (b : SawyerAssembly.bounds) g c :
  b.2 ≠ 0%nat → SawyerAssembly.perturb_size b g c = (Ok (half_spacing b), c).
Proof.
  destruct b as [[lo hi] n]. cbn [snd]. intros Hn.
  unfold SawyerAssembly.perturb_size, SawyerAssembly.truediv, half_spacing.
  destruct n; [done|]. reflexivity.
Qed.

(** The three arrays lines 185 to 216 compute, for any grid helper: the
    cycle length is the length of the flattened mesh. *)
Lemma placement_schedule_run (grid : R → R → nat → list R) perturb
    (xb yb zb : SawyerAssembly.bounds) X Y Z g c :
  np.meshgrid_ravel
    (grid xb.1.1 xb.1.2 xb.2) (grid yb.1.1 yb.1.2 yb.2) (grid zb.1.1 zb.1.2 zb.2)
  = (X, Y, Z) →
  (perturb = true → xb.2 ≠ 0%nat ∧ yb.2 ≠ 0%nat ∧ zb.2 ≠ 0%nat) →
  ∃ fx fy fz,
    SawyerAssembly.placement_schedule grid perturb (xb, yb, zb) g c
    = (Ok (fx, fy, fz), (c + schedule_draws perturb (length X))%nat)
    ∧ length fx = period perturb (length X)
    ∧ length fy = period perturb (length X)
    ∧ length fz = period perturb (length X)
    ∧ ∀ t, (t < period perturb (length X))%nat →
        ∃ x y z,
          X !! (t mod length X)%nat = Some x
          ∧ Y !! (t mod length X)%nat = Some y
          ∧ Z !! (t mod length X)%nat = Some z
          ∧ fx !! t = Some (perturbed perturb (half_spacing xb) x (g (c + 3 * t)%nat))
          ∧ fy !! t
            = Some (perturbed perturb (half_spacing yb) y (g (c + 3 * t + 1)%nat))
          ∧ fz !! t
            = Some (perturbed perturb (half_spacing zb) z (g (c + 3 * t + 2)%nat)).
Proof.
  intros Hmesh Hnz.
  pose proof (meshgrid_ravel_length
                (grid xb.1.1 xb.1.2 xb.2) (grid yb.1.1 yb.1.2 yb.2)
                (grid zb.1.1 zb.1.2 zb.2)) as (HX & HY & HZ).
  rewrite Hmesh in HX, HY, HZ. cbn [fst snd] in HX, HY, HZ.
  rewrite <- HX in HY, HZ. clear HX.
  set (L := length X) in *.
  unfold SawyerAssembly.placement_schedule. cbv beta iota zeta.
  cbn [fst snd]. rewrite Hmesh. cbv beta iota. fold L.
  assert (Hsizes :
    ∀ c0, (if perturb
           then x_pos_perturb_size ← SawyerAssembly.perturb_size xb;
                y_pos_perturb_size ← SawyerAssembly.perturb_size yb;
                z_rot_perturb_size ← SawyerAssembly.perturb_size zb;
                mret ((L * 100)%nat,
                      (x_pos_perturb_size, y_pos_perturb_size, z_rot_perturb_size))
           else mret (L, (0, 0, 0))) g c0
          = (Ok (period perturb L,
                 if perturb then (half_spacing xb, half_spacing yb, half_spacing zb)
                 else (0, 0, 0)), c0)).
  { intros c0. destruct perturb; [|reflexivity].
    destruct Hnz as (Hx & Hy & Hz); [done|].
    rewrite (bind_ok _ _ _ _ _ _ (perturb_size_run xb g c0 Hx)).
    rewrite (bind_ok _ _ _ _ _ _ (perturb_size_run yb g c0 Hy)).
    rewrite (bind_ok _ _ _ _ _ _ (perturb_size_run zb g c0 Hz)).
    reflexivity. }
  rewrite (bind_ok _ _ _ _ _ _ (Hsizes c)). cbv beta iota.
  set (sizes := if perturb then _ else _).
  assert (∃ sx sy sz, sizes = (sx, sy, sz)
            ∧ (perturb = true →
               sx = half_spacing xb ∧ sy = half_spacing yb ∧ sz = half_spacing zb))
    as (sx & sy & sz & -> & Hs).
  { subst sizes. destruct perturb; do 3 eexists; (split; [reflexivity|]); done. }
  destruct (decide (L = 0%nat)) as [HL0|HL].
  - rewrite HL0. assert (period perturb 0 = 0%nat) as -> by (by destruct perturb).
    cbn [seq replicate SawyerAssembly.schedule_loop]. run_monad.
    exists [], [], []. split; [f_equal; unfold schedule_draws; destruct perturb; lia|].
    repeat split. intros t Ht. lia.
  - destruct (schedule_loop_seq perturb sx sy sz X Y Z L (period perturb L)
                HL eq_refl HY HZ 0%nat
                (replicate (period perturb L) 0) (replicate (period perturb L) 0)
                (replicate (period perturb L) 0) g c)
      as (fx & fy & fz & Hrun & Hlx & Hly & Hlz & _ & Hnew);
      [rewrite length_replicate; lia..|].
    rewrite length_replicate in Hlx, Hly, Hlz.
    exists fx, fy, fz. split.
    { rewrite Hrun. f_equal. unfold schedule_draws, period. destruct perturb; lia. }
    split; [done|]. split; [done|]. split; [done|].
    intros t Ht. destruct (Hnew t Ht) as (x & y & z & Hx & Hy & Hz & H1 & H2 & H3).
    cbn [Nat.add] in *. exists x, y, z. rewrite H1, H2, H3.
    split; [done|]. split; [done|]. split; [done|].
    destruct perturb.
    + destruct Hs as (-> & -> & ->); done.
    + done.
Qed.

(** What the computation can raise at all: nothing, or the division by a
    grid count of zero when perturbation is on. *)
Lemma placement_schedule_outcome (grid : R → R → nat → list R) perturb
    (xb yb zb : SawyerAssembly.bounds) g c :
  (∃ fx fy fz,
     SawyerAssembly.placement_schedule grid perturb (xb, yb, zb) g c
     = (Ok (fx, fy, fz),
        (c + schedule_draws perturb
               (length (np.meshgrid_ravel
                          (grid xb.1.1 xb.1.2 xb.2) (grid yb.1.1 yb.1.2 yb.2)
                          (grid zb.1.1 zb.1.2 zb.2)).1.1))%nat))
  ∨ (perturb = true ∧ (xb.2 = 0%nat ∨ yb.2 = 0%nat ∨ zb.2 = 0%nat)
     ∧ SawyerAssembly.placement_schedule grid perturb (xb, yb, zb) g c
       = (Raise ZeroDivisionError, c)).
Proof.
  destruct (decide (perturb = true → xb.2 ≠ 0%nat ∧ yb.2 ≠ 0%nat ∧ zb.2 ≠ 0%nat))
    as [Hnz|Hz].
  - left.
    destruct (placement_schedule_run grid perturb xb yb zb _ _ _ g c eq_refl Hnz)
      as (fx & fy & fz & Hrun & _).
    by exists fx, fy, fz.
  - right. destruct perturb; [|by destruct Hz].
    split; [done|].
    unfold SawyerAssembly.placement_schedule. cbv beta iota zeta.
    destruct (np.meshgrid_ravel _ _ _) as [[X Y] Z]. cbv beta iota.
    destruct xb as [[xl xh] [|nx]], yb as [[yl yh] [|ny]], zb as [[zl zh] [|nz]];
      cbn [fst snd] in *;
      try (split; [tauto | reflexivity]).
    destruct Hz. intros _. done.
Qed.

Section Schedule.

Variable range_to_uniform_grid : R → R → nat → list R.

(** The grid helper returns as many points as it is asked for. *)
Hypothesis range_to_uniform_grid_length :
  ∀ a b n, length (range_to_uniform_grid a b n) = n.

Lemma base_cycle_length (xb yb zb : SawyerAssembly.bounds) X Y Z :
  np.meshgrid_ravel
    (range_to_uniform_grid xb.1.1 xb.1.2 xb.2)
    (range_to_uniform_grid yb.1.1 yb.1.2 yb.2)
    (range_to_uniform_grid zb.1.1 zb.1.2 zb.2) = (X, Y, Z) →
  length X = (xb.2 * yb.2 * zb.2)%nat
  ∧ length Y = (xb.2 * yb.2 * zb.2)%nat
  ∧ length Z = (xb.2 * yb.2 * zb.2)%nat.
Proof.
  intros Hmesh.
  pose proof (meshgrid_ravel_length
                (range_to_uniform_grid xb.1.1 xb.1.2 xb.2)
                (range_to_uniform_grid yb.1.1 yb.1.2 yb.2)
                (range_to_uniform_grid zb.1.1 zb.1.2 zb.2)) as H.
  rewrite Hmesh, !range_to_uniform_grid_length in H. exact H.
Qed.

(** The same arrays when the helper returns the number of points it is
    asked for: the cycle length is the product of the three counts. *)
Lemma placement_schedule_product perturb (xb yb zb : SawyerAssembly.bounds) X Y Z g c :
  np.meshgrid_ravel
    (range_to_uniform_grid xb.1.1 xb.1.2 xb.2)
    (range_to_uniform_grid yb.1.1 yb.1.2 yb.2)
    (range_to_uniform_grid zb.1.1 zb.1.2 zb.2) = (X, Y, Z) →
  (perturb = true → (xb.2 * yb.2 * zb.2)%nat ≠ 0%nat) →
  ∃ fx fy fz,
    SawyerAssembly.placement_schedule range_to_uniform_grid perturb (xb, yb, zb) g c
    = (Ok (fx, fy, fz), (c + schedule_draws perturb (xb.2 * yb.2 * zb.2))%nat)
    ∧ length fx = period perturb (xb.2 * yb.2 * zb.2)
    ∧ length fy = period perturb (xb.2 * yb.2 * zb.2)
    ∧ length fz = period perturb (xb.2 * yb.2 * zb.2)
    ∧ ∀ t, (t < period perturb (xb.2 * yb.2 * zb.2))%nat →
        ∃ x y z,
          X !! (t mod (xb.2 * yb.2 * zb.2))%nat = Some x
          ∧ Y !! (t mod (xb.2 * yb.2 * zb.2))%nat = Some y
          ∧ Z !! (t mod (xb.2 * yb.2 * zb.2))%nat = Some z
          ∧ fx !! t = Some (perturbed perturb (half_spacing xb) x (g (c + 3 * t)%nat))
          ∧ fy !! t
            = Some (perturbed perturb (half_spacing yb) y (g (c + 3 * t + 1)%nat))
          ∧ fz !! t
            = Some (perturbed perturb (half_spacing zb) z (g (c + 3 * t + 2)%nat)).
Proof.
  intros Hmesh Hnz.
  destruct (base_cycle_length xb yb zb X Y Z Hmesh) as (HX & _ & _).
  destruct (placement_schedule_run range_to_uniform_grid perturb xb yb zb X Y Z g c
              Hmesh) as (fx & fy & fz & H);
    [intros Hp; specialize (Hnz Hp); lia|].
  rewrite HX in H. by exists fx, fy, fz.
Qed.

End Schedule.

Lemma even_grid_length a b n : length (Examples.even_grid a b n) = n.
Proof. unfold Examples.even_grid. by rewrite length_fmap, length_seq. Qed.

Lemma sample_x_inverted s1 s2 a b r g c :
  x_range s1 = Some (a, b) → x_range s2 = Some (b, a) →
  ensure_object_boundary_in_range s1 = ensure_object_boundary_in_range s2 →
  sample_x s1 r g c = sample_x s2 r g c.
Proof.
  intros H1 H2 Hf. rewrite !sample_x_run.
  unfold draw, drawn_interval, x_active, active_range. rewrite H1, H2, Hf.
  cbn [from_option Datatypes.id fst snd]. by rewrite (Rmin_comm a b), (Rmax_comm a b).
Qed.

Lemma sample_y_inverted s1 s2 a b r g c :
  y_range s1 = Some (a, b) → y_range s2 = Some (b, a) →
  ensure_object_boundary_in_range s1 = ensure_object_boundary_in_range s2 →
  sample_y s1 r g c = sample_y s2 r g c.
Proof.
  intros H1 H2 Hf. rewrite !sample_y_run.
  unfold draw, drawn_interval, y_active, active_range. rewrite H1, H2, Hf.
  cbn [from_option Datatypes.id fst snd]. by rewrite (Rmin_comm a b), (Rmax_comm a b).
Qed.

Lemma sample_x_point s a r g c :
  x_range s = Some (a, a) → ensure_object_boundary_in_range s = false →
  sample_x s r g c = (Ok a, S c).
Proof.
  intros H Hf. rewrite sample_x_run. do 2 f_equal.
  unfold draw, drawn_interval, x_active. rewrite H, Hf.
  rewrite active_range_Some by lra. cbn [fst snd]. lra.
Qed.

Section ScheduleClaims.

Variable range_to_uniform_grid : R → R → nat → list R.

(** The grid helper returns as many points as it is asked for. *)
Hypothesis range_to_uniform_grid_length :
  ∀ a b n, length (range_to_uniform_grid a b n) = n.


End ScheduleClaims.

(** C8 (as amended).  Nothing validates a configuration.  The constructor
    stores any ranges as given; an inverted range is sampled like the same
    range in order, and an empty one yields its single point.  The
    computation of the evaluation schedule checks nothing either: whatever
    grids the helper returns, it raises nothing but the division by a grid
    count of zero under perturbation, and without perturbation a base
    cycle of length zero gives three empty arrays. *)
Theorem configuration_not_validated :
  (∀ xr yr zr flag rot,
     ∃ s, __init__ xr yr zr flag rot = Ok s
          ∧ Fresh.x_range s = xr ∧ Fresh.y_range s = yr ∧ Fresh.z_range s = zr
          ∧ Fresh.ensure_object_boundary_in_range s = flag
          ∧ Fresh.z_rotation s = rot)
  ∧ (∀ s1 s2 a b r g c,
       ensure_object_boundary_in_range s1 = ensure_object_boundary_in_range s2 →
       (x_range s1 = Some (a, b) → x_range s2 = Some (b, a) →
        sample_x s1 r g c = sample_x s2 r g c)
       ∧ (y_range s1 = Some (a, b) → y_range s2 = Some (b, a) →
          sample_y s1 r g c = sample_y s2 r g c))
  ∧ (∀ s a r g c,
       x_range s = Some (a, a) → ensure_object_boundary_in_range s = false →
       sample_x s r g c = (Ok a, S c))
  ∧ (∀ (grid : R → R → nat → list R) perturb (xb yb zb : SawyerAssembly.bounds) g c,
       (∃ fx fy fz c',
          SawyerAssembly.placement_schedule grid perturb (xb, yb, zb) g c
          = (Ok (fx, fy, fz), c'))
       ∨ (perturb = true ∧ (xb.2 = 0%nat ∨ yb.2 = 0%nat ∨ zb.2 = 0%nat)
          ∧ SawyerAssembly.placement_schedule grid perturb (xb, yb, zb) g c
            = (Raise ZeroDivisionError, c)))
  ∧ (∀ (grid : R → R → nat → list R) (xb yb zb : SawyerAssembly.bounds) g c,
       length (np.meshgrid_ravel
                 (grid xb.1.1 xb.1.2 xb.2) (grid yb.1.1 yb.1.2 yb.2)
                 (grid zb.1.1 zb.1.2 zb.2)).1.1 = 0%nat →
       SawyerAssembly.placement_schedule grid false (xb, yb, zb) g c
       = (Ok ([], [], []), c)).
Proof.
  split; [|split; [|split; [|split]]].
  - intros xr yr zr flag rot. eexists. split; [reflexivity|]. done.
  - intros s1 s2 a b r g c Hf. split; intros H1 H2.
    + by eapply sample_x_inverted.
    + by eapply sample_y_inverted.
  - intros s a r g c. apply sample_x_point.
  - intros grid perturb xb yb zb g c.
    destruct (placement_schedule_outcome grid perturb xb yb zb g c)
      as [(fx & fy & fz & Hrun)|H]; [left|by right].
    exists fx, fy, fz. eexists. exact Hrun.
  - intros grid xb yb zb g c Hzero.
    destruct (np.meshgrid_ravel _ _ _) as [[X Y] Z] eqn:Hmesh. cbn [fst] in Hzero.
    destruct (placement_schedule_run grid false xb yb zb X Y Z g c Hmesh)
      as (fx & fy & fz & Hrun & Hlx & Hly & Hlz & _); [done|].
    rewrite Hzero in Hrun, Hlx, Hly, Hlz. unfold period in Hlx, Hly, Hlz.
    apply nil_length_inv in Hlx, Hly, Hlz. subst fx fy fz.
    rewrite Hrun. f_equal. unfold schedule_draws. lia.
Qed.



(** The statement at work: a grid with no x point has a base cycle of
    length zero, and the schedule comes out empty without an error. *)
Lemma configuration_not_validated_witness :
  length (np.meshgrid_ravel (Examples.even_grid 0 1 0) (Examples.even_grid 0 1 3)
            (Examples.even_grid 0 1 3)).1.1 = 0%nat
  ∧ SawyerAssembly.placement_schedule Examples.even_grid false
      ((0, 1, 0%nat), (0, 1, 3%nat), (0, 1, 3%nat)) Examples.g_zero 0%nat
    = (Ok ([], [], []), 0%nat).
Proof.
  split; [reflexivity|].
  exact (proj2 (proj2 (proj2 (proj2 configuration_not_validated)))
           Examples.even_grid (0, 1, 0%nat) (0, 1, 3%nat) (0, 1, 3%nat)
           Examples.g_zero 0%nat eq_refl).
Defined.

(** C8, as stated, fails: the constructor accepts the inverted range
    [1, 0]; once the sampler is set up for one peg, [sample_x] draws from
    [0, 1] and [sample()] places the peg. *)
Lemma inverted_range_accepted :
  1 > 0
  ∧ ∃ s,
      __init__ (Some (1, 0)) None None false false = Ok s
      ∧ Fresh.x_range s = Some (1, 0)
      ∧ sample_x
          (setup_fresh s [Examples.peg 0.02] Examples.origin (np.Array3 0.8 0.8 0.8))
          0.02 Examples.g_zero 0%nat
        = (Ok 0, 1%nat)
      ∧ ∃ pos quat,
          sample
            (setup_fresh s [Examples.peg 0.02] Examples.origin (np.Array3 0.8 0.8 0.8))
            Examples.g_zero 0%nat
          = (Ok ([pos], [quat]), 3%nat).
Proof.
  split; [lra|]. eexists. split; [reflexivity|]. split; [reflexivity|]. split.
  - rewrite sample_x_run. do 2 f_equal.
    unfold draw, drawn_interval, x_active, active_range.
    cbn [setup_fresh x_range ensure_object_boundary_in_range Fresh.x_range
         Fresh.ensure_object_boundary_in_range from_option Datatypes.id fst snd].
    rewrite Rmin_right, Rmax_left by lra. unfold Examples.g_zero. lra.
  - do 2 eexists. by rewrite (sample_single _ (Examples.peg 0.02)).
Qed.

(** ** [PegsTask]: merging and placing *)

Lemma foldl_Rmax_bounds m rs :
  m <= foldl Rmax m rs
  ∧ (∀ r, r ∈ rs → r <= foldl Rmax m rs)
  ∧ (foldl Rmax m rs = m ∨ foldl Rmax m rs ∈ rs).
Proof.
  revert m. induction rs as [|r rs IH]; intros m; cbn [foldl].
  - split; [lra|]. split; [|by left]. intros r Hr. by apply elem_of_nil in Hr.
  - destruct (IH (Rmax m r)) as (H1 & H2 & H3).
    pose proof (Rmax_l m r). pose proof (Rmax_r m r).
    split; [lra|]. split.
    + intros r' Hr'. apply elem_of_cons in Hr' as [->|Hr']; [lra | by apply H2].
    + destruct H3 as [H3|H3]; [|right; by apply elem_of_cons; right].
      rewrite H3. unfold Rmax. destruct (Rle_dec m r); [right; left | by left].
Qed.

Section Task.

Variable merge_asset : Element → MujocoObject → Element.
Variable array_to_string : list R → string.

(** What the loop of [merge_objects] adds to a task. *)
Lemma merge_object_foldl items : ∀ self,
  let self' := foldl (PegsTask.merge_object merge_asset) self items in
  PegsTask.nodes self' = PegsTask.nodes self ++ (object_node <$> items)
  ∧ PegsTask.objects self'
    = PegsTask.objects self ++ seq (length (PegsTask.nodes self)) (length items)
  ∧ PegsTask.worldbody self'
    = PegsTask.worldbody self ++ seq (length (PegsTask.nodes self)) (length items)
  ∧ PegsTask.max_horizontal_radius self'
    = foldl Rmax (PegsTask.max_horizontal_radius self)
        (get_horizontal_radius <$> items.*2)
  ∧ PegsTask.n_objects self' = PegsTask.n_objects self
  ∧ PegsTask.mujoco_objects self' = PegsTask.mujoco_objects self
  ∧ PegsTask.shelf_offset self' = PegsTask.shelf_offset self
  ∧ PegsTask.shelf_size self' = PegsTask.shelf_size self
  ∧ PegsTask.initializer self' = PegsTask.initializer self.
Proof.
  induction items as [|[name obj] items IH]; intros self; cbn [foldl].
  - cbn. by rewrite !app_nil_r.
  - destruct (IH (PegsTask.merge_object merge_asset self (name, obj)))
      as (H1 & H2 & H3 & H4 & H5 & H6 & H7 & H8 & H9).
    cbv zeta. rewrite H1, H2, H3, H4, H5, H6, H7, H8, H9.
    cbn [PegsTask.merge_object PegsTask.nodes PegsTask.objects PegsTask.worldbody
         PegsTask.max_horizontal_radius PegsTask.n_objects PegsTask.mujoco_objects
         PegsTask.shelf_offset PegsTask.shelf_size PegsTask.initializer
         fmap list_fmap length seq foldl snd].
    rewrite length_app. cbn [length].
    replace (length (PegsTask.nodes self) + 1)%nat
      with (S (length (PegsTask.nodes self))) by lia.
    rewrite <- !app_assoc. done.
Qed.

Lemma merge_objects_fields self items :
  let self' := PegsTask.merge_objects merge_asset self items in
  PegsTask.nodes self' = PegsTask.nodes self ++ (object_node <$> items)
  ∧ PegsTask.objects self' = seq (length (PegsTask.nodes self)) (length items)
  ∧ PegsTask.worldbody self'
    = PegsTask.worldbody self ++ seq (length (PegsTask.nodes self)) (length items)
  ∧ PegsTask.max_horizontal_radius self'
    = foldl Rmax 0 (get_horizontal_radius <$> items.*2)
  ∧ PegsTask.n_objects self' = length items
  ∧ PegsTask.mujoco_objects self' = items
  ∧ PegsTask.shelf_offset self' = PegsTask.shelf_offset self
  ∧ PegsTask.shelf_size self' = PegsTask.shelf_size self.
Proof.
  unfold PegsTask.merge_objects. cbv zeta.
  match goal with
  | |- context [foldl _ ?s items] =>
      destruct (merge_object_foldl items s)
        as (H1 & H2 & H3 & H4 & H5 & H6 & H7 & H8 & _)
  end.
  rewrite H1, H2, H3, H4, H5, H6, H7, H8. done.
Qed.

End Task.

Section Placing.

Variable array_to_string : list R → string.

Lemma set_nodes_same task : PegsTask.set_nodes task (PegsTask.nodes task) = task.
Proof. by destruct task. Qed.

(** The loop of [place_objects] over the indices [s, ..., s + k - 1]
    rewrites exactly the nodes these entries of [self.objects] refer to. *)
Lemma place_loop_seq P Q k : ∀ s task g c,
  (s + k ≤ length (PegsTask.objects task))%nat →
  (s + k ≤ length P)%nat → (s + k ≤ length Q)%nat →
  NoDup (PegsTask.objects task) →
  ∃ ns,
    PegsTask.place_loop array_to_string (seq s k) task P Q g c
    = (Ok (PegsTask.set_nodes task ns), c)
    ∧ length ns = length (PegsTask.nodes task)
    ∧ (∀ r, (∀ i, (i < k)%nat → PegsTask.objects task !! (s + i)%nat ≠ Some r) →
         ns !! r = PegsTask.nodes task !! r)
    ∧ (∀ i, (i < k)%nat →
         ∃ r p q,
           PegsTask.objects task !! (s + i)%nat = Some r
           ∧ P !! (s + i)%nat = Some p ∧ Q !! (s + i)%nat = Some q
           ∧ ns !! r = posed array_to_string p q <$> PegsTask.nodes task !! r).
Proof.
  induction k as [|k IH]; intros s task g c Ho HP HQ Hnd.
  - exists (PegsTask.nodes task). cbn [seq PegsTask.place_loop].
    rewrite set_nodes_same. repeat split; try done. intros i Hi. lia.
  - cbn [seq PegsTask.place_loop].
    destruct (lookup_lt_is_Some_2 (PegsTask.objects task) s) as [r Hr]; [lia|].
    destruct (lookup_lt_is_Some_2 P s) as [p Hp]; [lia|].
    destruct (lookup_lt_is_Some_2 Q s) as [q Hq]; [lia|].
    rewrite (bind_ok _ _ _ _ _ _ (getitem_lookup _ _ _ g c Hr)).
    rewrite (bind_ok _ _ _ _ _ _ (getitem_lookup _ _ _ g c Hp)).
    cbv zeta. cbn [PegsTask.objects PegsTask.set_nodes PegsTask.nodes].
    rewrite (bind_ok _ _ _ _ _ _ (getitem_lookup _ _ _ g c Hr)).
    rewrite (bind_ok _ _ _ _ _ _ (getitem_lookup _ _ _ g c Hq)).
    set (ns1 := alter _ r (alter _ r (PegsTask.nodes task))).
    destruct (IH (S s) (PegsTask.set_nodes task ns1) g c)
      as (ns & Hrun & Hlen & Hkeep & Hset);
      [cbn [PegsTask.objects PegsTask.set_nodes]; first [lia | done]..|].
    cbn [PegsTask.objects PegsTask.set_nodes PegsTask.nodes] in *.
    exists ns. split; [exact Hrun|]. split.
    { rewrite Hlen. subst ns1. by rewrite !length_alter. }
    split.
    + intros r' Hr'. rewrite Hkeep.
      * assert (r ≠ r') as Hne.
        { intros ->. apply (Hr' 0%nat); [lia|]. by rewrite Nat.add_0_r. }
        subst ns1. by rewrite !list_lookup_alter_ne.
      * intros i Hi. replace (S s + i)%nat with (s + S i)%nat by lia.
        apply Hr'. lia.
    + intros [|i] Hi.
      * rewrite Nat.add_0_r. exists r, p, q. repeat split; try done.
        rewrite Hkeep.
        -- subst ns1. rewrite !list_lookup_alter_eq.
           rewrite <- option_fmap_compose. reflexivity.
        -- intros i Hi' Hri.
           pose proof (NoDup_lookup _ _ _ _ Hnd Hr Hri). lia.
      * destruct (Hset i) as (r' & p' & q' & Hr' & Hp' & Hq' & Hn); [lia|].
        replace (s + S i)%nat with (S s + i)%nat by lia.
        exists r', p', q'. repeat split; try done.
        assert (r ≠ r') as Hne.
        { intros ->. pose proof (NoDup_lookup _ _ _ _ Hnd Hr Hr'). lia. }
        rewrite Hn. subst ns1. by rewrite !list_lookup_alter_ne.
Qed.

End Placing.

Lemma joint_attributes name :
  attrib (PegsTask.joint name "free" "0.0005") !! "name" = Some name
  ∧ attrib (PegsTask.joint name "free" "0.0005") !! "type" = Some "free"
  ∧ attrib (PegsTask.joint name "free" "0.0005") !! "damping" = Some "0.0005"
  ∧ tag (PegsTask.joint name "free" "0.0005") = "joint".
Proof.
  unfold PegsTask.joint. cbn [attrib tag]. split; [apply lookup_insert_eq|].
  split; [rewrite lookup_insert_ne by done; apply lookup_insert_eq|].
  split; [rewrite !lookup_insert_ne by done; apply lookup_insert_eq|].
  reflexivity.
Qed.

(** The task [__init__] builds. *)
Lemma init_task merge_asset base objs sampler :
  ∃ s,
    PegsTask.__init__ merge_asset base objs sampler
    = Ok (PegsTask.set_initializer (PegsTask.merge_objects merge_asset base objs)
            (setup s objs.*2 (PegsTask.shelf_offset base) (PegsTask.shelf_size base))).
Proof.
  unfold PegsTask.__init__. cbv zeta.
  destruct (merge_objects_fields merge_asset base objs)
    as (_ & _ & _ & _ & _ & Hm & Ho & Hs).
  cbv zeta in Hm, Ho, Hs. rewrite Hm, Ho, Hs.
  destruct sampler as [[u|s]|].
  - exists (setup_fresh u [] Examples.origin Examples.origin). reflexivity.
  - exists s. reflexivity.
  - exists (setup_fresh
              {| Fresh.x_range := None; Fresh.y_range := None; Fresh.z_range := None;
                 Fresh.ensure_object_boundary_in_range := true;
                 Fresh.z_rotation := true |} [] Examples.origin Examples.origin).
    reflexivity.
Qed.

(** The run behind the two-object example: the peg goes down at the
    origin, the raised peg half a unit to the side and 0.3 higher. *)
Lemma mixed_pegs_sample :
  sample Examples.mixed_pegs Examples.g_far 0%nat
  = (Ok ([np.Array3 0 0 0; np.Array3 0.5 0 0.3], [(1, 0, 0, 0); (1, 0, 0, 0)]),
     6%nat).
Proof.
  assert (Hc : ∀ o c,
            candidate Examples.mixed_pegs o Examples.g_far c
            = np.Array3 (0 - np.x_ (get_bottom_offset o) + Examples.g_far c)
                (0 - np.y_ (get_bottom_offset o) + Examples.g_far (S c))
                (0 - np.z_ (get_bottom_offset o) + 0.04 * Examples.g_far (S (S c)))).
  { intros o c.
    unfold candidate, draw, drawn_interval, x_active, y_active, z_active.
    cbn [x_range y_range z_range ensure_object_boundary_in_range table_top_offset
         Examples.mixed_pegs setup_fresh Examples.unit_square
         Fresh.x_range Fresh.y_range Fresh.z_range
         Fresh.ensure_object_boundary_in_range].
    rewrite !active_range_Some by lra.
    unfold np.add, np.sub, Examples.origin. cbn [fst snd np.x_ np.y_ np.z_].
    f_equal; lra. }
  assert (H1 : candidate Examples.mixed_pegs (Examples.peg 0.02) Examples.g_far 0%nat
               = np.Array3 0 0 0).
  { rewrite Hc. cbn [Examples.g_far Examples.peg get_bottom_offset np.x_ np.y_ np.z_].
    f_equal; lra. }
  assert (H2 : candidate Examples.mixed_pegs (Examples.raised_peg 0.02)
                 Examples.g_far 3%nat
               = np.Array3 0.5 0 0.3).
  { rewrite Hc.
    cbn [Examples.g_far Examples.raised_peg get_bottom_offset np.x_ np.y_ np.z_].
    f_equal; lra. }
  rewrite (sample_pair Examples.mixed_pegs (Examples.peg 0.02)
             (Examples.raised_peg 0.02))
    by first
      [ reflexivity
      | cbn [after_orientation z_rotation Examples.mixed_pegs setup_fresh
             Examples.unit_square Fresh.z_rotation Nat.add];
        rewrite H1, H2; cbn [location_valid];
        replace (collides _ _ _) with false; [reflexivity|];
        symmetry; unfold collides; apply andb_false_iff; left;
        apply bool_decide_eq_false;
        unfold np.linalg_norm, np.sub;
        cbn [fst snd np.x_ np.y_ np.z_ Examples.peg Examples.raised_peg
             get_horizontal_radius];
        apply Rlt_not_le, sqrt_above; lra ].
  cbn [after_orientation orientation z_rotation Examples.mixed_pegs setup_fresh
       Examples.unit_square Fresh.z_rotation Nat.add].
  by rewrite H1, H2.
Qed.

Lemma sign_string_values :
  Examples.sign_string [0; 0; 0] = "---"
  ∧ Examples.sign_string [0.5; 0; 0.3] = "+-+"
  ∧ Examples.sign_string [1; 0; 0; 0] = "+---".
Proof.
  cbn [Examples.sign_string].
  rewrite (bool_decide_eq_false_2 (0.25 <= 0)) by lra.
  rewrite (bool_decide_eq_true_2 (0.25 <= 0.5)) by lra.
  rewrite (bool_decide_eq_true_2 (0.25 <= 0.3)) by lra.
  rewrite (bool_decide_eq_true_2 (0.25 <= 1)) by lra.
  done.
Qed.

(** C9.  [merge_objects] walks the mapping in its order: entry [i] becomes
    node [i] of [self.objects] and of the world body, the collision
    fragment with one joint appended, named after the object, free, with
    damping 0.0005; [max_horizontal_radius] is the running maximum of the
    radii met so far.  The sampler is set up with the objects in the same
    order, and [place_objects] writes position [i] and orientation [i] of
    its result onto node [i]: afterwards that node is the fragment of
    object [i] with the joint of object [i], its [pos] attribute is
    [array_to_string] of the three coordinates of position [i] and its
    [quat] attribute is [array_to_string] of the four components of
    orientation [i]. *)
Theorem objects_merged_and_placed_in_order merge_asset array_to_string
    base objs sampler :
  ∃ task,
    PegsTask.__init__ merge_asset base objs sampler = Ok task
    ∧ PegsTask.mujoco_objects task = objs
    ∧ PegsTask.n_objects task = length objs
    ∧ PegsTask.objects task = seq (length (PegsTask.nodes base)) (length objs)
    ∧ PegsTask.worldbody task = PegsTask.worldbody base ++ PegsTask.objects task
    ∧ mujoco_objects (PegsTask.initializer task) = objs.*2
    ∧ (∀ i item, objs !! i = Some item →
         ∃ r,
           PegsTask.objects task !! i = Some r
           ∧ PegsTask.nodes task !! r
             = Some (mkElement (tag (get_collision item.2 item.1 true))
                       (attrib (get_collision item.2 item.1 true))
                       (children (get_collision item.2 item.1 true)
                          ++ [PegsTask.joint item.1 "free" "0.0005"]))
           ∧ tag (PegsTask.joint item.1 "free" "0.0005") = "joint"
           ∧ attrib (PegsTask.joint item.1 "free" "0.0005") !! "name" = Some item.1
           ∧ attrib (PegsTask.joint item.1 "free" "0.0005") !! "type" = Some "free"
           ∧ attrib (PegsTask.joint item.1 "free" "0.0005") !! "damping"
             = Some "0.0005"
           ∧ get_horizontal_radius item.2 <= PegsTask.max_horizontal_radius task)
    ∧ (PegsTask.max_horizontal_radius task = 0
       ∨ ∃ item, item ∈ objs
           ∧ PegsTask.max_horizontal_radius task = get_horizontal_radius item.2)
    ∧ (∀ self item,
         PegsTask.max_horizontal_radius (PegsTask.merge_object merge_asset self item)
         = Rmax (PegsTask.max_horizontal_radius self) (get_horizontal_radius item.2))
    ∧ (∀ g c P Q c',
         sample (PegsTask.initializer task) g c = (Ok (P, Q), c') →
         ∃ task',
           PegsTask.place_objects array_to_string task g c = (Ok task', c')
           ∧ PegsTask.objects task' = PegsTask.objects task
           ∧ PegsTask.worldbody task' = PegsTask.worldbody task
           ∧ (∀ r, (r < length (PegsTask.nodes base))%nat →
                PegsTask.nodes task' !! r = PegsTask.nodes base !! r)
           ∧ ∀ i item, objs !! i = Some item →
               ∃ r px py pz w x y z,
                 PegsTask.objects task' !! i = Some r
                 ∧ P !! i = Some (np.Array3 px py pz)
                 ∧ Q !! i = Some (w, x, y, z)
                 ∧ (∃ c0, np.Array3 px py pz
                          = candidate (PegsTask.initializer task) item.2 g c0)
                 ∧ PegsTask.nodes task' !! r
                   = Some (mkElement (tag (get_collision item.2 item.1 true))
                             (<["quat" := array_to_string [w; x; y; z]]>
                                (<["pos" := array_to_string [px; py; pz]]>
                                   (attrib (get_collision item.2 item.1 true))))
                             (children (get_collision item.2 item.1 true)
                                ++ [PegsTask.joint item.1 "free" "0.0005"]))).
Proof.
  destruct (init_task merge_asset base objs sampler) as [s Hinit].
  destruct (merge_objects_fields merge_asset base objs)
    as (Hn & Ho & Hw & Hmax & Hcount & Hm & _ & _).
  cbv zeta in *.
  set (merged := PegsTask.merge_objects merge_asset base objs) in *.
  eexists. split; [exact Hinit|].
  cbn [PegsTask.set_initializer PegsTask.mujoco_objects PegsTask.n_objects
       PegsTask.objects PegsTask.worldbody PegsTask.initializer PegsTask.nodes
       PegsTask.max_horizontal_radius setup mujoco_objects].
  assert (Hnode : ∀ i item, objs !! i = Some item →
            PegsTask.objects merged !! i = Some (length (PegsTask.nodes base) + i)%nat
            ∧ PegsTask.nodes merged !! (length (PegsTask.nodes base) + i)%nat
              = Some (object_node item)).
  { intros i item Hi. rewrite Ho, Hn. split.
    - apply lookup_seq_lt. by eapply lookup_lt_Some.
    - rewrite lookup_app_r by lia.
      replace (length (PegsTask.nodes base) + i - length (PegsTask.nodes base))%nat
        with i by lia.
      by rewrite list_lookup_fmap, Hi. }
  destruct (foldl_Rmax_bounds 0 (get_horizontal_radius <$> objs.*2))
    as (_ & Hge & Hatt).
  rewrite <- Hmax in Hge, Hatt.
  split; [done|]. split; [done|]. split; [done|]. split; [by rewrite Hw, Ho|].
  split; [done|]. split; [|split; [|split]].
  - intros i item Hi. destruct (Hnode i item Hi) as [H1 H2].
    destruct (joint_attributes item.1) as (Ha & Hb & Hc & Ht).
    eexists. split; [exact H1|]. split; [exact H2|]. split; [exact Ht|].
    split; [exact Ha|]. split; [exact Hb|]. split; [exact Hc|].
    apply Hge. apply list_elem_of_fmap_2, list_elem_of_fmap_2.
    by eapply list_elem_of_lookup_2.
  - destruct Hatt as [Hatt|Hatt]; [by left|right].
    apply list_elem_of_fmap_1 in Hatt as (o & Heq & Hin).
    apply list_elem_of_fmap_1 in Hin as (item & -> & Hin).
    by exists item.
  - intros self [name obj]. reflexivity.
  - intros g c P Q c' Hsample.
    pose proof (sample_ok_inv _ _ _ _ _ _ Hsample) as (HlP & HlQ & Hcand & _).
    cbn [setup mujoco_objects] in HlP, HlQ, Hcand.
    rewrite length_fmap in HlP, HlQ.
    unfold PegsTask.place_objects.
    rewrite (bind_ok _ _ _ _ _ _ Hsample). cbv beta iota.
    cbn [PegsTask.set_initializer PegsTask.objects].
    destruct (place_loop_seq array_to_string P Q (length (PegsTask.objects merged))
                0%nat
                (PegsTask.set_initializer merged
                   (setup s objs.*2 (PegsTask.shelf_offset base)
                      (PegsTask.shelf_size base))) g c')
      as (ns & Hrun & Hlen & Hkeep & Hset).
    { cbn [PegsTask.set_initializer PegsTask.objects]. lia. }
    { rewrite Ho, length_seq. lia. }
    { rewrite Ho, length_seq. lia. }
    { cbn [PegsTask.set_initializer PegsTask.objects]. rewrite Ho. apply NoDup_seq. }
    cbn [PegsTask.set_initializer PegsTask.objects PegsTask.nodes] in *.
    eexists. split; [exact Hrun|].
    cbn [PegsTask.set_nodes PegsTask.objects PegsTask.worldbody PegsTask.nodes].
    split; [done|]. split; [done|]. split.
    + intros r Hr. rewrite Hkeep.
      * rewrite Hn. by rewrite lookup_app_l.
      * intros i Hi Hri. rewrite Ho, length_seq in Hi.
        rewrite Ho, lookup_seq_lt in Hri by done. injection Hri as <-. lia.
    + intros i item Hi. destruct (Hnode i item Hi) as [H1 H2].
      assert (Hlt : (i < length (PegsTask.objects merged))%nat).
      { by eapply lookup_lt_Some. }
      destruct (Hset i Hlt) as (r & p & q & Hr & Hp & Hq & Hnew).
      cbn [Nat.add] in Hr, Hp, Hq.
      pose proof (eq_trans (eq_sym H1) Hr) as E. injection E as <-.
      destruct p as [px py pz], q as [[[w x] y] z].
      exists (length (PegsTask.nodes base) + i)%nat, px, py, pz, w, x, y, z.
      split; [exact H1|]. split; [exact Hp|]. split; [exact Hq|]. split.
      * assert (Hobj : objs.*2 !! i = Some item.2).
        { by rewrite list_lookup_fmap, Hi. }
        exact (Forall2_lookup_lr _ _ _ _ _ _ Hcand Hobj Hp).
      * etrans; [exact Hnew|].
        exact (f_equal (fmap (posed array_to_string (np.Array3 px py pz) (w, x, y, z)))
                 H2).
Qed.

(** The statement at work: a peg [a] and a raised peg [b] merged into the
    bare world and placed.  Node 0 is the fragment of [a] and carries the
    first pose, node 1 is the fragment of [b] and carries the second, whose
    height shows the bottom offset of [b]. *)
Lemma objects_merged_and_placed_in_order_witness :
  ∃ task task',
    PegsTask.__init__ Examples.keep_asset Examples.bare_world
      [("a", Examples.peg 0.02); ("b", Examples.raised_peg 0.02)]
      (Some (BeforeSetup Examples.unit_square)) = Ok task
    ∧ sample (PegsTask.initializer task) Examples.g_far 0%nat
      = (Ok ([np.Array3 0 0 0; np.Array3 0.5 0 0.3], [(1, 0, 0, 0); (1, 0, 0, 0)]),
         6%nat)
    ∧ PegsTask.place_objects Examples.sign_string task Examples.g_far 0%nat
      = (Ok task', 6%nat)
    ∧ PegsTask.objects task' = [0%nat; 1%nat]
    ∧ PegsTask.nodes task' !! 0%nat
      = Some (mkElement "body"
                (<["quat" := "+---"]> (<["pos" := "---"]> (<["name" := "a"]> ∅)))
                [PegsTask.joint "a" "free" "0.0005"])
    ∧ PegsTask.nodes task' !! 1%nat
      = Some (mkElement "body"
                (<["quat" := "+---"]> (<["pos" := "+-+"]> (<["name" := "b"]> ∅)))
                [PegsTask.joint "b" "free" "0.0005"]).
Proof.
  destruct (objects_merged_and_placed_in_order Examples.keep_asset
              Examples.sign_string Examples.bare_world
              [("a", Examples.peg 0.02); ("b", Examples.raised_peg 0.02)]
              (Some (BeforeSetup Examples.unit_square)))
    as (task & Hinit & _ & _ & Hobjs & _ & _ & _ & _ & _ & Hplace).
  assert (Hs : PegsTask.initializer task = Examples.mixed_pegs).
  { injection Hinit as <-. reflexivity. }
  assert (Hsample :
    sample (PegsTask.initializer task) Examples.g_far 0%nat
    = (Ok ([np.Array3 0 0 0; np.Array3 0.5 0 0.3], [(1, 0, 0, 0); (1, 0, 0, 0)]),
       6%nat)).
  { rewrite Hs. exact mixed_pegs_sample. }
  destruct (Hplace Examples.g_far 0%nat _ _ _ Hsample)
    as (task' & Hrun & Ho & _ & _ & Hnodes).
  destruct sign_string_values as (S1 & S2 & S3).
  destruct (Hnodes 0%nat ("a", Examples.peg 0.02) eq_refl)
    as (r0 & px0 & py0 & pz0 & w0 & x0 & y0 & z0 & Hr0 & HP0 & HQ0 & _ & Hn0).
  destruct (Hnodes 1%nat ("b", Examples.raised_peg 0.02) eq_refl)
    as (r1 & px1 & py1 & pz1 & w1 & x1 & y1 & z1 & Hr1 & HP1 & HQ1 & _ & Hn1).
  rewrite Ho, Hobjs in Hr0, Hr1.
  injection Hr0 as <-. injection Hr1 as <-.
  injection HP0 as <- <- <-. injection HQ0 as <- <- <- <-.
  injection HP1 as <- <- <-. injection HQ1 as <- <- <- <-.
  rewrite S1, S3 in Hn0. rewrite S2, S3 in Hn1.
  exists task, task'.
  split; [exact Hinit|]. split; [exact Hsample|]. split; [exact Hrun|].
  split; [by rewrite Ho, Hobjs|]. split; [exact Hn0 | exact Hn1].
Defined.

(** * Further properties of the code *)

(** ** The rejection sampler *)

(** The inner loop over [placed_objects] accepts a candidate exactly when
    every placed object is either further away than the two radii or at
    least 0.021 above or below: objects may be stacked. *)
Theorem location_valid_iff pos hr placed :
  location_valid pos hr placed = true ↔
  ∀ p r, (p, r) ∈ placed →
    np.linalg_norm (np.sub pos p) > r + hr
    ∨ Rabs (np.z_ pos - np.z_ p) >= 0.021.
Proof.
  rewrite location_valid_Forall, Forall_forall. split.
  - intros H p r Hin. specialize (H (p, r) Hin). unfold collides in H.
    cbn [fst snd] in H.
    apply andb_false_iff in H as [H|H]; apply bool_decide_eq_false in H;
      [left | right]; lra.
  - intros H [p r] Hin. destruct (H p r Hin) as [Hd|Hz]; unfold collides;
      cbn [fst snd]; apply andb_false_iff; [left | right];
      apply bool_decide_eq_false; lra.
Qed.

Lemma orientation_unit self g c : quat_norm (orientation self g c) = 1.
Proof.
  unfold orientation, quat_norm. destruct (z_rotation self).
  - set (a := (0 + (2 * PI - 0) * g c) / 2).
    replace (cos a * cos a + 0 * 0 + 0 * 0 + sin a * sin a)
      with (Rsqr (sin a) + Rsqr (cos a)) by (unfold Rsqr; ring).
    rewrite sin2_cos2. apply sqrt_1.
  - replace (1 * 1 + 0 * 0 + 0 * 0 + 0 * 0) with 1 by ring. apply sqrt_1.
Qed.

Lemma sample_loop_quats self g objs st c st' c' :
  sample_loop self objs st g c = (Ok st', c') →
  ∃ qs, quat_arr st' = quat_arr st ++ qs
        ∧ Forall (λ q, ∃ c0, q = orientation self g c0) qs.
Proof.
  revert st c. induction objs as [|o objs IH]; intros st c Hrun.
  - cbn in Hrun. injection Hrun as <- <-. exists []. by rewrite app_nil_r.
  - cbn [sample_loop] in Hrun.
    destruct (place_cases self o st g c) as [(k & _ & _ & _ & Hp)|[_ Hp]].
    + rewrite (bind_ok _ _ _ _ _ _ Hp) in Hrun.
      apply IH in Hrun as (qs & Hq & Hall). cbn [extend quat_arr] in Hq.
      exists (orientation self g (c + 3 * k + 3)%nat :: qs). split.
      * by rewrite Hq, <- app_assoc.
      * constructor; [by eexists | done].
    + by rewrite (bind_raise _ _ _ _ _ _ Hp) in Hrun.
Qed.

(** A successful [sample()] returns one position and one orientation per
    object, in the order of the objects; every orientation is a unit
    quaternion, whatever the draws. *)
Theorem sample_poses_aligned self g c P Q c' :
  sample self g c = (Ok (P, Q), c') →
  length P = length (mujoco_objects self)
  ∧ length Q = length (mujoco_objects self)
  ∧ Forall2 (λ o p, ∃ c0, p = candidate self o g c0) (mujoco_objects self) P
  ∧ Forall (λ q, quat_norm q = 1) Q.
Proof.
  intros Hrun.
  destruct (sample_ok_inv _ _ _ _ _ _ Hrun) as (HP & HQ & Hcand & _).
  split; [done|]. split; [done|]. split; [done|].
  unfold sample in Hrun.
  destruct (sample_loop self (mujoco_objects self) (Arrays [] [] []) g c)
    as [[st|e] c1] eqn:Hloop.
  - rewrite (bind_ok _ _ _ _ _ _ Hloop) in Hrun. run_monad.
    injection Hrun as <- <- <-.
    apply sample_loop_quats in Hloop as (qs & -> & Hall). cbn [app].
    eapply Forall_impl; [exact Hall|]. intros q [c0 ->]. apply orientation_unit.
  - by rewrite (bind_raise _ _ _ _ _ _ Hloop) in Hrun.
Qed.

(** The statement at work on two pegs half a unit apart. *)
Lemma sample_poses_aligned_witness :
  sample Examples.two_pegs Examples.g_far 0%nat
  = (Ok ([np.Array3 0 0 0; np.Array3 0.5 0 0], [(1, 0, 0, 0); (1, 0, 0, 0)]),
     6%nat)
  ∧ Forall (λ q, quat_norm q = 1) [(1, 0, 0, 0); (1, 0, 0, 0)].
Proof.
  split; [exact far_pegs_sample|].
  exact (proj2 (proj2 (proj2
           (sample_poses_aligned _ _ _ _ _ _ far_pegs_sample)))).
Defined.

Lemma after_orientation_bounds self c :
  (c ≤ after_orientation self c ≤ S c)%nat.
Proof. unfold after_orientation. destruct (z_rotation self); lia. Qed.

Lemma place_budget self obj st g c :
  (c ≤ (place self obj st g c).2 ≤ c + (3 * max_attempts + 1))%nat
  ∧ (∀ st', (place self obj st g c).1 = Ok st' →
       (c + 3 ≤ (place self obj st g c).2)%nat).
Proof.
  destruct (place_cases self obj st g c) as [(k & Hk & _ & _ & Hp)|[_ Hp]];
    rewrite Hp; cbn [fst snd].
  - pose proof (after_orientation_bounds self (c + 3 * k + 3)%nat).
    split; [lia|]. intros _ _. lia.
  - split; [lia|]. intros st' H. discriminate.
Qed.

Lemma sample_loop_budget self g objs : ∀ st c,
  (c ≤ (sample_loop self objs st g c).2
     ≤ c + length objs * (3 * max_attempts + 1))%nat
  ∧ (∀ st', (sample_loop self objs st g c).1 = Ok st' →
       (c + 3 * length objs ≤ (sample_loop self objs st g c).2)%nat).
Proof.
  induction objs as [|o objs IH]; intros st c.
  - cbn. split; [lia|]. intros _ _. lia.
  - cbn [sample_loop length].
    destruct (place_budget self o st g c) as [Hb Hok].
    destruct (place self o st g c) as [[st1|e] c1] eqn:Hp; cbn [fst snd] in *.
    + rewrite (bind_ok _ _ _ _ _ _ Hp).
      destruct (IH st1 c1) as [Hb1 Hok1]. specialize (Hok st1 eq_refl).
      split; [lia|]. intros st' Hst. specialize (Hok1 st' Hst). lia.
    + rewrite (bind_raise _ _ _ _ _ _ Hp). cbn [fst snd].
      split; [lia|]. intros st' H. discriminate.
Qed.

(** Whatever the outcome, [sample()] consumes at most 3 * 5000 + 1 draws
    per object, and a successful call at least three per object. *)
Theorem sample_draw_budget self g c :
  (c ≤ (sample self g c).2
     ≤ c + length (mujoco_objects self) * (3 * 5000 + 1))%nat
  ∧ (∀ P Q, (sample self g c).1 = Ok (P, Q) →
       (c + 3 * length (mujoco_objects self) ≤ (sample self g c).2)%nat).
Proof.
  change 5000%nat with max_attempts. unfold sample.
  destruct (sample_loop_budget self g (mujoco_objects self) (Arrays [] [] []) c)
    as [Hb Hok].
  destruct (sample_loop self (mujoco_objects self) (Arrays [] [] []) g c)
    as [[st|e] c1] eqn:Hloop; cbn [fst snd] in *.
  - rewrite (bind_ok _ _ _ _ _ _ Hloop). run_monad. cbn [fst snd].
    split; [done|]. intros _ _ _. by eapply Hok.
  - rewrite (bind_raise _ _ _ _ _ _ Hloop). cbn [fst snd].
    split; [done|]. intros P Q H. discriminate.
Qed.

Lemma sample_loop_raise_inv self g objs : ∀ st c e c',
  sample_loop self objs st g c = (Raise e, c') →
  ∃ pre obj post st1 c1,
    objs = pre ++ obj :: post
    ∧ sample_loop self pre st g c = (Ok st1, c1)
    ∧ (∀ k, (k < max_attempts)%nat →
         rejected self obj (placed_objects st1) g c1 k)
    ∧ e = RandomizationError "Cannot place all objects on the desk"
    ∧ c' = (c1 + 3 * max_attempts)%nat.
Proof.
  induction objs as [|o objs IH]; intros st c e c' Hrun; [discriminate|].
  cbn [sample_loop] in Hrun.
  destruct (place_cases self o st g c) as [(k & _ & _ & _ & Hp)|[Hrej Hp]].
  - rewrite (bind_ok _ _ _ _ _ _ Hp) in Hrun.
    apply IH in Hrun as (pre & obj & post & st1 & c1 & -> & Hpre & Hall & -> & ->).
    exists (o :: pre), obj, post, st1, c1. repeat split; try done.
    cbn [sample_loop]. by rewrite (bind_ok _ _ _ _ _ _ Hp).
  - rewrite (bind_raise _ _ _ _ _ _ Hp) in Hrun. injection Hrun as <- <-.
    exists [], o, objs, st, c. repeat split; done.
Qed.

(** [sample()] fails in one way only: some object other than the first had
    all of its 5000 candidates rejected against the objects placed before
    it.  The error is [RandomizationError], and the first object never
    causes it. *)
Theorem sample_fails_only_by_exhaustion self g c e c' :
  sample self g c = (Raise e, c') →
  e = RandomizationError "Cannot place all objects on the desk"
  ∧ ∃ pre obj post st c1,
      mujoco_objects self = pre ++ obj :: post
      ∧ pre ≠ []
      ∧ sample_loop self pre (Arrays [] [] []) g c = (Ok st, c1)
      ∧ placed_objects st ≠ []
      ∧ (∀ k, (k < 5000)%nat → rejected self obj (placed_objects st) g c1 k)
      ∧ c' = (c1 + 3 * 5000)%nat.
Proof.
  change 5000%nat with max_attempts. unfold sample. intros Hrun.
  destruct (sample_loop self (mujoco_objects self) (Arrays [] [] []) g c)
    as [[st|e0] c0] eqn:Hloop.
  { by rewrite (bind_ok _ _ _ _ _ _ Hloop) in Hrun. }
  rewrite (bind_raise _ _ _ _ _ _ Hloop) in Hrun. injection Hrun as <- <-.
  apply sample_loop_raise_inv in Hloop
    as (pre & obj & post & st & c1 & Hobjs & Hpre & Hall & -> & ->).
  split; [done|]. exists pre, obj, post, st, c1.
  assert (Hne : placed_objects st ≠ []).
  { intros Hnil. assert (0 < max_attempts)%nat as H0 by (unfold max_attempts; lia).
    specialize (Hall 0%nat H0). unfold rejected in Hall.
    rewrite Hnil in Hall. discriminate. }
  repeat split; try done.
  intros ->. cbn in Hpre. injection Hpre as <- <-. by apply Hne.
Qed.

Lemma zero_draws_sample_raises :
  sample Examples.two_pegs Examples.g_zero 0%nat
  = (Raise (RandomizationError "Cannot place all objects on the desk"),
     (3 + 3 * max_attempts)%nat).
Proof.
  eapply (sample_raise_inv _ _ _ [Examples.peg 0.02] (Examples.peg 0.02) []);
    [reflexivity | exact zero_draws_first_peg |].
  apply place_all_rejected. intros k _. apply zero_draws_rejected.
Qed.

(** The statement at work: with every draw 0 it is the second peg that
    cannot be placed. *)
Lemma sample_fails_only_by_exhaustion_witness :
  sample Examples.two_pegs Examples.g_zero 0%nat
  = (Raise (RandomizationError "Cannot place all objects on the desk"),
     (3 + 3 * max_attempts)%nat)
  ∧ ∃ pre obj post,
      mujoco_objects Examples.two_pegs = pre ++ obj :: post ∧ pre ≠ [].
Proof.
  split; [exact zero_draws_sample_raises|].
  destruct (sample_fails_only_by_exhaustion _ _ _ _ _ zero_draws_sample_raises)
    as (_ & pre & obj & post & st & c1 & Hobjs & Hne & _).
  exists pre, obj, post. split; [exact Hobjs | exact Hne].
Defined.

(** The retry loop reads the sampler's configuration, not its object
    list. *)
Lemma attempts_setup s o1 o2 off size n obj st g c :
  attempts n (setup s o1 off size) obj st g c
  = attempts n (setup s o2 off size) obj st g c.
Proof.
  revert c. induction n as [|n IH]; intros c; [reflexivity|].
  rewrite !attempts_S.
  change (candidate (setup s o1 off size) obj g c)
    with (candidate (setup s o2 off size) obj g c).
  destruct (location_valid _ _ _); [reflexivity | apply IH].
Qed.

Lemma sample_loop_setup s o1 o2 off size objs : ∀ st g c,
  sample_loop (setup s o1 off size) objs st g c
  = sample_loop (setup s o2 off size) objs st g c.
Proof.
  induction objs as [|o objs IH]; intros st g c; [reflexivity|].
  cbn [sample_loop].
  assert (place (setup s o1 off size) o st g c
          = place (setup s o2 off size) o st g c) as Hp.
  { unfold place. run_monad. by rewrite (attempts_setup s o1 o2). }
  run_monad. rewrite Hp.
  destruct (place (setup s o2 off size) o st g c) as [[st1|e] c1]; [|done].
  apply IH.
Qed.

Lemma sample_loop_extends self g objs st c st' c' :
  sample_loop self objs st g c = (Ok st', c') →
  ∃ ps qs, length ps = length objs ∧ length qs = length objs
           ∧ pos_arr st' = pos_arr st ++ ps ∧ quat_arr st' = quat_arr st ++ qs.
Proof.
  intros H. apply sample_loop_inv in H as (ps & qs & H1 & H2 & H3 & H4 & _).
  by exists ps, qs.
Qed.

Lemma sample_unfold self g c :
  sample self g c =
    match sample_loop self (mujoco_objects self) (Arrays [] [] []) g c with
    | (Ok st, c1) => (Ok (pos_arr st, quat_arr st), c1)
    | (Raise e, c1) => (Raise e, c1)
    end.
Proof. reflexivity. Qed.

(** There is no backtracking: on the same random stream, appending objects
    to the list leaves the poses of the earlier objects as they were when
    sampled alone, and a failure among the earlier objects is the failure
    of the longer list. *)
Theorem sample_prefix_stable s pre post off size g c :
  (∀ P1 Q1 c1 P Q c',
     sample (setup s pre off size) g c = (Ok (P1, Q1), c1) →
     sample (setup s (pre ++ post) off size) g c = (Ok (P, Q), c') →
     take (length pre) P = P1 ∧ take (length pre) Q = Q1 ∧ (c1 ≤ c')%nat)
  ∧ (∀ e c1,
       sample (setup s pre off size) g c = (Raise e, c1) →
       sample (setup s (pre ++ post) off size) g c = (Raise e, c1)).
Proof.
  rewrite !sample_unfold. cbn [setup mujoco_objects].
  rewrite sample_loop_app.
  set (self := setup s pre off size).
  set (self' := setup s (pre ++ post) off size).
  assert (Hsame : ∀ objs st g0 c0,
            sample_loop self' objs st g0 c0 = sample_loop self objs st g0 c0).
  { intros. apply sample_loop_setup. }
  destruct (sample_loop self pre (Arrays [] [] []) g c) as [[st1|e1] c1] eqn:Hpre.
  - rewrite (bind_ok _ _ _ _ st1 c1) by (by rewrite Hsame). rewrite Hsame.
    split; [|intros e c0 H; discriminate].
    intros P1 Q1 c1' P Q c' H1 H2. injection H1 as <- <- <-.
    destruct (sample_loop self post st1 g c1) as [[st2|e2] c2] eqn:Hpost;
      [|discriminate].
    injection H2 as <- <- <-.
    pose proof (sample_loop_budget self g post st1 c1) as [Hb _].
    rewrite Hpost in Hb. cbn [snd] in Hb.
    destruct (sample_loop_extends _ _ _ _ _ _ _ Hpre)
      as (ps1 & qs1 & Hl1 & Hl2 & Hp1 & Hq1).
    destruct (sample_loop_extends _ _ _ _ _ _ _ Hpost)
      as (ps2 & qs2 & _ & _ & Hp2 & Hq2).
    cbn [pos_arr quat_arr app] in Hp1, Hq1. rewrite Hp2, Hq2, Hp1, Hq1.
    rewrite <- Hl1 at 1. rewrite <- Hl2. rewrite !take_app_length.
    repeat split; first [done | lia].
  - rewrite (bind_raise _ _ _ _ e1 c1) by (by rewrite Hsame).
    split; [intros P1 Q1 c0 P Q c' H; discriminate|].
    intros e c0 H. exact H.
Qed.

(** The statement at work: the first of two pegs keeps the pose it gets
    when sampled alone. *)
Lemma sample_prefix_stable_witness :
  sample (setup Examples.two_pegs [Examples.peg 0.02] Examples.origin
            (np.Array3 0.8 0.8 0.8)) Examples.g_far 0%nat
  = (Ok ([candidate Examples.two_pegs (Examples.peg 0.02) Examples.g_far 0%nat],
         [(1, 0, 0, 0)]), 3%nat)
  ∧ take 1 [np.Array3 0 0 0; np.Array3 0.5 0 0]
    = [candidate Examples.two_pegs (Examples.peg 0.02) Examples.g_far 0%nat].
Proof.
  assert (H1 : sample (setup Examples.two_pegs [Examples.peg 0.02] Examples.origin
                         (np.Array3 0.8 0.8 0.8)) Examples.g_far 0%nat
               = (Ok ([candidate Examples.two_pegs (Examples.peg 0.02)
                         Examples.g_far 0%nat], [(1, 0, 0, 0)]), 3%nat)).
  { by rewrite (sample_single _ (Examples.peg 0.02)). }
  split; [exact H1|].
  exact (proj1 (proj1 (sample_prefix_stable Examples.two_pegs
                  [Examples.peg 0.02] [Examples.peg 0.02] Examples.origin
                  (np.Array3 0.8 0.8 0.8) Examples.g_far 0%nat)
                _ _ _ _ _ _ H1 far_pegs_sample)).
Defined.

Lemma candidate_relative self o g c :
  np.add (np.sub (candidate self o g c) (table_top_offset self)) (get_bottom_offset o)
  = np.Array3 (draw self (x_active self) (get_horizontal_radius o) (g c))
      (draw self (y_active self) (get_horizontal_radius o) (g (S c)))
      (draw self (z_active self) 0.01 (g (S (S c)))).
Proof.
  unfold candidate, np.add, np.sub. cbn [np.x_ np.y_ np.z_]. f_equal; lra.
Qed.

(** Every position [sample()] returns, taken relative to the table top and
    shifted back by the object's bottom offset, lies in the box the three
    axis samplers draw from, on each axis whose interval is not inverted;
    without boundary inclusion that is the whole active range. *)
Theorem sample_positions_in_region self g c P Q c' i p o :
  valid_rng g →
  sample self g c = (Ok (P, Q), c') →
  P !! i = Some p → mujoco_objects self !! i = Some o →
  let rel := np.add (np.sub p (table_top_offset self)) (get_bottom_offset o) in
  let ix := drawn_interval self (x_active self) (get_horizontal_radius o) in
  let iy := drawn_interval self (y_active self) (get_horizontal_radius o) in
  let iz := drawn_interval self (z_active self) 0.01 in
  (ix.1 <= ix.2 → ix.1 <= np.x_ rel <= ix.2)
  ∧ (iy.1 <= iy.2 → iy.1 <= np.y_ rel <= iy.2)
  ∧ (iz.1 <= iz.2 → iz.1 <= np.z_ rel <= iz.2)
  ∧ (ensure_object_boundary_in_range self = false →
       (x_active self).1 <= np.x_ rel <= (x_active self).2
       ∧ (y_active self).1 <= np.y_ rel <= (y_active self).2
       ∧ (z_active self).1 <= np.z_ rel <= (z_active self).2).
Proof.
  intros Hg Hrun Hp Ho rel ix iy iz.
  apply sample_ok_inv in Hrun as (_ & _ & Hcand & _).
  destruct (Forall2_lookup_lr _ _ _ _ _ _ Hcand Ho Hp) as [c0 ->].
  subst rel. rewrite candidate_relative. cbn [np.x_ np.y_ np.z_].
  pose proof (draw_within self (x_active self) (get_horizontal_radius o)
                (g c0) (Hg c0)) as Hx.
  pose proof (draw_within self (y_active self) (get_horizontal_radius o)
                (g (S c0)) (Hg (S c0))) as Hy.
  pose proof (draw_within self (z_active self) 0.01
                (g (S (S c0))) (Hg (S (S c0)))) as Hz.
  split; [exact Hx|]. split; [exact Hy|]. split; [exact Hz|].
  intros Hflag.
  pose proof (active_range_ordered (x_range self)
    (- np.x_ (table_size self) / 2, np.x_ (table_size self) / 2)) as Hox.
  pose proof (active_range_ordered (y_range self)
    (- np.x_ (table_size self) / 2, np.x_ (table_size self) / 2)) as Hoy.
  pose proof (active_range_ordered (z_range self) (0, 1)) as Hoz.
  fold (x_active self) in Hox. fold (y_active self) in Hoy.
  fold (z_active self) in Hoz.
  unfold drawn_interval in Hx, Hy, Hz. rewrite Hflag in Hx, Hy, Hz.
  split; [by apply Hx|]. split; [by apply Hy | by apply Hz].
Qed.

(** The statement at work: the second of two pegs stays on the unit
    square and between the heights 0 and 0.04. *)
Lemma sample_positions_in_region_witness :
  valid_rng Examples.g_far
  ∧ sample Examples.two_pegs Examples.g_far 0%nat
    = (Ok ([np.Array3 0 0 0; np.Array3 0.5 0 0], [(1, 0, 0, 0); (1, 0, 0, 0)]),
       6%nat)
  ∧ 0 <= 0.5 - 0 + 0 <= 1 ∧ 0 <= 0 - 0 + 0 <= 1 ∧ 0 <= 0 - 0 + 0 <= 0.04.
Proof.
  assert (Hg : valid_rng Examples.g_far).
  { intros [|[|[|[|n]]]]; cbn [Examples.g_far]; lra. }
  split; [exact Hg|]. split; [exact far_pegs_sample|].
  pose proof (proj2 (proj2 (proj2
    (sample_positions_in_region Examples.two_pegs Examples.g_far 0%nat _ _ _
       1%nat (np.Array3 0.5 0 0) (Examples.peg 0.02) Hg far_pegs_sample
       eq_refl eq_refl))) eq_refl) as H.
  unfold x_active, y_active, z_active in H.
  cbn [x_range y_range z_range Examples.two_pegs] in H.
  rewrite !active_range_Some in H by lra.
  exact H.
Defined.

(** ** [PegsTask] beyond the claims *)

(** Calling [merge_objects] a second time starts [self.objects],
    [n_objects] and [max_horizontal_radius] afresh from the new mapping,
    while the nodes of the first call stay in the world body. *)
Theorem merge_objects_again merge_asset base objs1 objs2 :
  let t1 := PegsTask.merge_objects merge_asset base objs1 in
  let t2 := PegsTask.merge_objects merge_asset t1 objs2 in
  PegsTask.objects t2
  = seq (length (PegsTask.nodes base) + length objs1) (length objs2)
  ∧ PegsTask.worldbody t2
    = PegsTask.worldbody base ++ PegsTask.objects t1 ++ PegsTask.objects t2
  ∧ PegsTask.nodes t2
    = PegsTask.nodes base ++ (object_node <$> objs1) ++ (object_node <$> objs2)
  ∧ PegsTask.n_objects t2 = length objs2
  ∧ PegsTask.mujoco_objects t2 = objs2
  ∧ PegsTask.max_horizontal_radius t2
    = foldl Rmax 0 (get_horizontal_radius <$> objs2.*2).
Proof.
  cbv zeta.
  pose proof (merge_objects_fields merge_asset base objs1)
    as (Hn1 & Ho1 & Hw1 & _).
  set (t1 := PegsTask.merge_objects merge_asset base objs1) in *.
  pose proof (merge_objects_fields merge_asset t1 objs2)
    as (Hn2 & Ho2 & Hw2 & Hm2 & Hc2 & Hmo2 & _).
  set (t2 := PegsTask.merge_objects merge_asset t1 objs2) in *.
  assert (Hlen : length (PegsTask.nodes t1)
                 = (length (PegsTask.nodes base) + length objs1)%nat).
  { by rewrite Hn1, length_app, length_fmap. }
  rewrite Hlen in Ho2, Hw2.
  split; [exact Ho2|]. split; [by rewrite Hw2, Hw1, Ho1, Ho2, <- app_assoc|].
  split; [by rewrite Hn2, Hn1, <- app_assoc|]. done.
Qed.

Section PlacingMore.

Variable array_to_string : list R → string.

(** [place_objects] on a task whose object references are distinct and
    whose sampler knows at least as many objects. *)
Lemma place_objects_run task g c P Q c' :
  NoDup (PegsTask.objects task) →
  (length (PegsTask.objects task)
     ≤ length (mujoco_objects (PegsTask.initializer task)))%nat →
  sample (PegsTask.initializer task) g c = (Ok (P, Q), c') →
  ∃ ns,
    PegsTask.place_objects array_to_string task g c
    = (Ok (PegsTask.set_nodes task ns), c')
    ∧ length ns = length (PegsTask.nodes task)
    ∧ (∀ r, r ∉ PegsTask.objects task → ns !! r = PegsTask.nodes task !! r)
    ∧ (∀ i r, PegsTask.objects task !! i = Some r →
         ∃ p q, P !! i = Some p ∧ Q !! i = Some q
                ∧ ns !! r = posed array_to_string p q <$> PegsTask.nodes task !! r).
Proof.
  intros Hnd Hlen Hsample.
  pose proof (sample_ok_inv _ _ _ _ _ _ Hsample) as (HlP & HlQ & _ & _).
  unfold PegsTask.place_objects.
  rewrite (bind_ok _ _ _ _ _ _ Hsample). cbv beta iota.
  destruct (place_loop_seq array_to_string P Q (length (PegsTask.objects task))
              0%nat task g c')
    as (ns & Hrun & Hl & Hkeep & Hset); [cbn; lia.. | done |].
  exists ns. split; [exact Hrun|]. split; [exact Hl|]. split.
  - intros r Hr. apply Hkeep. intros i Hi Hri. apply Hr.
    by eapply list_elem_of_lookup_2.
  - intros i r Hi.
    destruct (Hset i) as (r' & p & q & Hr' & Hp & Hq & Hn);
      [by eapply lookup_lt_Some|].
    cbn [Nat.add] in *. pose proof (eq_trans (eq_sym Hr') Hi) as E.
    injection E as ->. by exists p, q.
Qed.

Lemma posed_fields p q e :
  tag (posed array_to_string p q e) = tag e
  ∧ children (posed array_to_string p q e) = children e
  ∧ attrib (posed array_to_string p q e) !! "pos"
    = Some (array_to_string (PegsTask.array3_values p))
  ∧ attrib (posed array_to_string p q e) !! "quat"
    = Some (array_to_string (PegsTask.quat_values q))
  ∧ (∀ k, k ≠ "pos" → k ≠ "quat" →
       attrib (posed array_to_string p q e) !! k = attrib e !! k).
Proof.
  unfold posed, Element_set. cbn [tag children attrib].
  split; [done|]. split; [done|]. split.
  { rewrite lookup_insert_ne by done. apply lookup_insert_eq. }
  split; [apply lookup_insert_eq|].
  intros k H1 H2. by rewrite !lookup_insert_ne.
Qed.

(** [place_objects] changes the [pos] and [quat] attributes of the object
    nodes and nothing else: every node keeps its tag, its children and its
    other attributes, nodes that are not objects keep everything, and the
    task keeps its lists of objects and of world-body children. *)
Theorem place_objects_only_poses task g c P Q c' :
  NoDup (PegsTask.objects task) →
  (length (PegsTask.objects task)
     ≤ length (mujoco_objects (PegsTask.initializer task)))%nat →
  sample (PegsTask.initializer task) g c = (Ok (P, Q), c') →
  ∃ ns,
    PegsTask.place_objects array_to_string task g c
    = (Ok (PegsTask.set_nodes task ns), c')
    ∧ length ns = length (PegsTask.nodes task)
    ∧ ∀ r e, PegsTask.nodes task !! r = Some e →
        ∃ e', ns !! r = Some e'
              ∧ tag e' = tag e ∧ children e' = children e
              ∧ (∀ k, k ≠ "pos" → k ≠ "quat" → attrib e' !! k = attrib e !! k)
              ∧ (r ∉ PegsTask.objects task → e' = e).
Proof.
  intros Hnd Hlen Hsample.
  destruct (place_objects_run task g c P Q c' Hnd Hlen Hsample)
    as (ns & Hrun & Hl & Hkeep & Hset).
  exists ns. split; [exact Hrun|]. split; [exact Hl|].
  intros r e He.
  destruct (decide (r ∈ PegsTask.objects task)) as [Hin|Hnin].
  - destruct (list_elem_of_lookup_1 _ _ Hin) as [i Hi].
    destruct (Hset i r Hi) as (p & q & _ & _ & Hn).
    exists (posed array_to_string p q e).
    split; [etrans; [exact Hn|]; exact (f_equal (fmap _) He)|].
    destruct (posed_fields p q e) as (H1 & H2 & _ & _ & H5).
    split; [done|]. split; [done|]. split; [done|].
    intros Hnin. by destruct Hnin.
  - exists e. split; [etrans; [by apply Hkeep | exact He]|]. done.
Qed.

Lemma posed_overwrites p1 q1 p2 q2 e :
  posed array_to_string p2 q2 (posed array_to_string p1 q1 e)
  = posed array_to_string p2 q2 e.
Proof.
  unfold posed, Element_set. cbn [tag children attrib]. f_equal.
  apply map_eq. intros k. rewrite !lookup_insert.
  repeat case_decide; congruence.
Qed.

(** Placing twice is placing once with the second draw: the poses of the
    first call are overwritten, and the attribute dictionaries do not
    grow. *)
Theorem place_objects_last_wins task g c P1 Q1 c1 P2 Q2 c2 :
  NoDup (PegsTask.objects task) →
  (length (PegsTask.objects task)
     ≤ length (mujoco_objects (PegsTask.initializer task)))%nat →
  sample (PegsTask.initializer task) g c = (Ok (P1, Q1), c1) →
  sample (PegsTask.initializer task) g c1 = (Ok (P2, Q2), c2) →
  ∃ t1 t2,
    PegsTask.place_objects array_to_string task g c = (Ok t1, c1)
    ∧ PegsTask.place_objects array_to_string t1 g c1 = (Ok t2, c2)
    ∧ PegsTask.objects t2 = PegsTask.objects task
    ∧ PegsTask.worldbody t2 = PegsTask.worldbody task
    ∧ (∀ r, r ∉ PegsTask.objects task →
         PegsTask.nodes t2 !! r = PegsTask.nodes task !! r)
    ∧ ∀ i r, PegsTask.objects task !! i = Some r →
        ∃ p q, P2 !! i = Some p ∧ Q2 !! i = Some q
               ∧ PegsTask.nodes t2 !! r
                 = posed array_to_string p q <$> PegsTask.nodes task !! r.
Proof.
  intros Hnd Hlen H1 H2.
  destruct (place_objects_run task g c P1 Q1 c1 Hnd Hlen H1)
    as (ns1 & Hrun1 & Hl1 & Hkeep1 & Hset1).
  destruct (place_objects_run (PegsTask.set_nodes task ns1) g c1 P2 Q2 c2
              Hnd Hlen H2)
    as (ns2 & Hrun2 & Hl2 & Hkeep2 & Hset2).
  cbn [PegsTask.set_nodes PegsTask.objects PegsTask.nodes] in *.
  exists (PegsTask.set_nodes task ns1), (PegsTask.set_nodes task ns2).
  split; [exact Hrun1|]. split; [exact Hrun2|].
  cbn [PegsTask.set_nodes PegsTask.objects PegsTask.worldbody PegsTask.nodes].
  split; [done|]. split; [done|]. split.
  - intros r Hr. by rewrite Hkeep2, Hkeep1.
  - intros i r Hi.
    destruct (Hset1 i r Hi) as (p1 & q1 & _ & _ & Hn1).
    destruct (Hset2 i r Hi) as (p2 & q2 & Hp2 & Hq2 & Hn2).
    exists p2, q2. split; [done|]. split; [done|].
    etrans; [exact Hn2|]. rewrite Hn1.
    destruct (PegsTask.nodes task !! r) as [e|]; [|done].
    cbn. by rewrite posed_overwrites.
Qed.

End PlacingMore.

Lemma one_peg_sample c :
  sample (PegsTask.initializer Examples.one_peg_task) Examples.g_zero c
  = (Ok ([np.Array3 0.04 (-0.35) 0.01], [(1, 0, 0, 0)]), (3 + c)%nat).
Proof.
  rewrite (sample_single _ (Examples.peg 0.05)) by reflexivity.
  change (candidate _ _ _ c)
    with (candidate Examples.narrow (Examples.peg 0.05) Examples.g_zero c).
  by rewrite narrow_candidate.
Qed.

(** The statement at work on the task with one peg. *)
Lemma place_objects_only_poses_witness :
  NoDup (PegsTask.objects Examples.one_peg_task)
  ∧ ∃ ns,
      PegsTask.place_objects Examples.count_values Examples.one_peg_task
        Examples.g_zero 0%nat
      = (Ok (PegsTask.set_nodes Examples.one_peg_task ns), 3%nat)
      ∧ length ns = 1%nat.
Proof.
  assert (Hnd : NoDup (PegsTask.objects Examples.one_peg_task)).
  { apply (NoDup_seq 0 1). }
  split; [exact Hnd|].
  destruct (place_objects_only_poses Examples.count_values Examples.one_peg_task
              Examples.g_zero 0%nat _ _ _ Hnd (le_n 1) (one_peg_sample 0%nat))
    as (ns & Hrun & Hl & _).
  exists ns. split; [exact Hrun | exact Hl].
Defined.

(** The statement at work: two placements of the one peg in a row. *)
Lemma place_objects_last_wins_witness :
  NoDup (PegsTask.objects Examples.one_peg_task)
  ∧ ∃ t1 t2,
      PegsTask.place_objects Examples.count_values Examples.one_peg_task
        Examples.g_zero 0%nat = (Ok t1, 3%nat)
      ∧ PegsTask.place_objects Examples.count_values t1 Examples.g_zero 3%nat
        = (Ok t2, 6%nat)
      ∧ PegsTask.objects t2 = [0%nat].
Proof.
  assert (Hnd : NoDup (PegsTask.objects Examples.one_peg_task)).
  { apply (NoDup_seq 0 1). }
  split; [exact Hnd|].
  destruct (place_objects_last_wins Examples.count_values Examples.one_peg_task
              Examples.g_zero 0%nat _ _ _ _ _ _ Hnd (le_n 1)
              (one_peg_sample 0%nat) (one_peg_sample 3%nat))
    as (t1 & t2 & H1 & H2 & Ho & _).
  exists t1, t2. split; [exact H1|]. split; [exact H2 | exact Ho].
Defined.

Section PlacingShort.

Variable array_to_string : list R → string.

Lemma place_loop_short P Q k : ∀ s task g c,
  (s + k ≤ length (PegsTask.objects task))%nat →
  length Q = length P →
  (s ≤ length P < s + k)%nat →
  PegsTask.place_loop array_to_string (seq s k) task P Q g c
  = (Raise IndexError, c).
Proof.
  induction k as [|k IH]; intros s task g c Ho HQ Hn; [lia|].
  cbn [seq PegsTask.place_loop].
  destruct (lookup_lt_is_Some_2 (PegsTask.objects task) s) as [r Hr]; [lia|].
  rewrite (bind_ok _ _ _ _ _ _ (getitem_lookup _ _ _ g c Hr)).
  destruct (decide (s = length P)) as [->|Hne].
  - apply bind_raise. unfold getitem.
    by rewrite lookup_ge_None_2 by lia.
  - destruct (lookup_lt_is_Some_2 P s) as [p Hp]; [lia|].
    destruct (lookup_lt_is_Some_2 Q s) as [q Hq]; [lia|].
    rewrite (bind_ok _ _ _ _ _ _ (getitem_lookup _ _ _ g c Hp)).
    cbv zeta. cbn [PegsTask.objects PegsTask.set_nodes PegsTask.nodes].
    rewrite (bind_ok _ _ _ _ _ _ (getitem_lookup _ _ _ g c Hr)).
    rewrite (bind_ok _ _ _ _ _ _ (getitem_lookup _ _ _ g c Hq)).
    apply IH; [cbn; lia | done | lia].
Qed.

(** When the sampler knows fewer objects than the task holds nodes, a
    successful [sample()] is followed by an [IndexError]: the loop runs
    over [self.objects] and finds no pose for the first surplus node. *)
Theorem place_objects_missing_pose task g c P Q c' :
  (length (mujoco_objects (PegsTask.initializer task))
     < length (PegsTask.objects task))%nat →
  sample (PegsTask.initializer task) g c = (Ok (P, Q), c') →
  PegsTask.place_objects array_to_string task g c = (Raise IndexError, c').
Proof.
  intros Hlen Hsample.
  pose proof (sample_ok_inv _ _ _ _ _ _ Hsample) as (HlP & HlQ & _ & _).
  unfold PegsTask.place_objects.
  rewrite (bind_ok _ _ _ _ _ _ Hsample). cbv beta iota.
  apply place_loop_short; [cbn; lia | congruence | lia].
Qed.

End PlacingShort.

(** The statement at work: the sampler was set up again without objects. *)
Lemma place_objects_missing_pose_witness :
  (length (mujoco_objects (PegsTask.initializer Examples.stale_task))
     < length (PegsTask.objects Examples.stale_task))%nat
  ∧ sample (PegsTask.initializer Examples.stale_task) Examples.g_zero 0%nat
    = (Ok ([], []), 0%nat)
  ∧ PegsTask.place_objects Examples.count_values Examples.stale_task
      Examples.g_zero 0%nat = (Raise IndexError, 0%nat).
Proof.
  assert (Hlen : (length (mujoco_objects (PegsTask.initializer Examples.stale_task))
                  < length (PegsTask.objects Examples.stale_task))%nat).
  { cbn. lia. }
  split; [exact Hlen|]. split; [reflexivity|].
  exact (place_objects_missing_pose Examples.count_values Examples.stale_task
           Examples.g_zero 0%nat [] [] 0%nat Hlen eq_refl).
Defined.

(** ** The evaluation schedule beyond the claims *)

Lemma lookup_bind_const {A B} (f : A → list B) (l : list A) n i k a :
  (∀ a, length (f a) = n) → l !! i = Some a → (k < n)%nat →
  (l ≫= f) !! (i * n + k)%nat = f a !! k.
Proof.
  intros Hf. revert i. induction l as [|x l IH]; intros i Hi Hk; [done|].
  rewrite bind_cons. destruct i as [|i].
  - injection Hi as ->. cbn [Nat.mul Nat.add]. apply lookup_app_l. by rewrite Hf.
  - cbn [lookup list_lookup] in Hi. rewrite lookup_app_r by (rewrite Hf; lia).
    rewrite Hf. replace (S i * n + k - n)%nat with (i * n + k)%nat by lia.
    by apply IH.
Qed.

(** Where the flattened mesh holds the combination of the [i]-th x, the
    [j]-th y and the [k]-th z. *)
Lemma meshgrid_ravel_lookup x y z i j k xi yj zk :
  x !! i = Some xi → y !! j = Some yj → z !! k = Some zk →
  let t := ((j * length x + i) * length z + k)%nat in
  (t < length x * length y * length z)%nat
  ∧ (np.meshgrid_ravel x y z).1.1 !! t = Some xi
  ∧ (np.meshgrid_ravel x y z).1.2 !! t = Some yj
  ∧ (np.meshgrid_ravel x y z).2 !! t = Some zk.
Proof.
  intros Hx Hy Hz t.
  pose proof (lookup_lt_Some _ _ _ Hx) as Hi.
  pose proof (lookup_lt_Some _ _ _ Hy) as Hj.
  pose proof (lookup_lt_Some _ _ _ Hz) as Hk.
  assert (Ht : t = (j * (length x * length z) + (i * length z + k))%nat)
    by (subst t; lia).
  assert (Hin : (i * length z + k < length x * length z)%nat) by nia.
  split; [subst t; nia|].
  unfold np.meshgrid_ravel. cbn [fst snd]. rewrite Ht. repeat split.
  - rewrite (lookup_bind_const _ y (length x * length z) j _ yj); [|
      intros a; apply length_bind_const; intros b; apply length_fmap |
      done | done].
    rewrite (lookup_bind_const _ x (length z) i k xi);
      [| intros a; apply length_fmap | done | done].
    by rewrite list_lookup_fmap, Hz.
  - rewrite (lookup_bind_const _ y (length x * length z) j _ yj); [|
      intros a; apply length_bind_const; intros b; apply length_fmap |
      done | done].
    rewrite (lookup_bind_const _ x (length z) i k xi);
      [| intros a; apply length_fmap | done | done].
    by rewrite list_lookup_fmap, Hz.
  - rewrite (lookup_bind_const _ y (length x * length z) j _ yj); [|
      intros a; by apply length_bind_const | done | done].
    by rewrite (lookup_bind_const _ x (length z) i k xi).
Qed.

Section ScheduleMore.

Variable range_to_uniform_grid : R → R → nat → list R.

(** The grid helper returns as many points as it is asked for. *)
Hypothesis range_to_uniform_grid_length :
  ∀ a b n, length (range_to_uniform_grid a b n) = n.

(** Without perturbation the three arrays computed by lines 185 to 216
    visit the full Cartesian product: every combination of an x, a y and a
    z-rotation of the three grids is the entry of some index below the
    cycle length. *)
Theorem schedule_covers_product (xb yb zb : SawyerAssembly.bounds) g c i j k xi yj zk :
  range_to_uniform_grid xb.1.1 xb.1.2 xb.2 !! i = Some xi →
  range_to_uniform_grid yb.1.1 yb.1.2 yb.2 !! j = Some yj →
  range_to_uniform_grid zb.1.1 zb.1.2 zb.2 !! k = Some zk →
  ∃ fx fy fz t,
    SawyerAssembly.placement_schedule range_to_uniform_grid false (xb, yb, zb) g c
    = (Ok (fx, fy, fz), c)
    ∧ t = ((j * xb.2 + i) * zb.2 + k)%nat
    ∧ (t < xb.2 * yb.2 * zb.2)%nat
    ∧ fx !! t = Some xi
    ∧ fy !! t = Some yj
    ∧ fz !! t = Some zk.
Proof.
  intros Hx Hy Hz.
  destruct (meshgrid_ravel_lookup _ _ _ _ _ _ _ _ _ Hx Hy Hz)
    as (Ht & HX & HY & HZ).
  repeat rewrite range_to_uniform_grid_length in Ht.
  repeat rewrite range_to_uniform_grid_length in HX.
  repeat rewrite range_to_uniform_grid_length in HY.
  repeat rewrite range_to_uniform_grid_length in HZ.
  unfold np.meshgrid_ravel in HX, HY, HZ. cbn [fst snd] in HX, HY, HZ.
  set (t := ((j * xb.2 + i) * zb.2 + k)%nat) in *.
  destruct (placement_schedule_product range_to_uniform_grid
              range_to_uniform_grid_length false xb yb zb _ _ _ g c eq_refl)
    as (fx & fy & fz & Hrun & _ & _ & _ & Hent); [done|].
  exists fx, fy, fz, t.
  split; [rewrite Hrun; f_equal; unfold schedule_draws; lia|].
  split; [done|]. split; [done|].
  destruct (Hent t Ht) as (x & y & z & Hbx & Hby & Hbz & H1 & H2 & H3).
  rewrite Nat.mod_small in Hbx, Hby, Hbz by done.
  unfold perturbed in H1, H2, H3. rewrite H1, H2, H3. repeat split; congruence.
Qed.

(** Without perturbation the computation of the three arrays consumes no
    draw and its result does not depend on the random stream. *)
Theorem unperturbed_schedule_ignores_rng (xb yb zb : SawyerAssembly.bounds) g1 c1 g2 c2 :
  ∃ fx fy fz,
    SawyerAssembly.placement_schedule range_to_uniform_grid false (xb, yb, zb) g1 c1
    = (Ok (fx, fy, fz), c1)
    ∧ SawyerAssembly.placement_schedule range_to_uniform_grid false (xb, yb, zb)
        g2 c2
      = (Ok (fx, fy, fz), c2).
Proof.
  destruct (placement_schedule_product range_to_uniform_grid
              range_to_uniform_grid_length false xb yb zb _ _ _ g1 c1 eq_refl)
    as (fx1 & fy1 & fz1 & Hrun1 & Hlx1 & Hly1 & Hlz1 & Hent1); [done|].
  destruct (placement_schedule_product range_to_uniform_grid
              range_to_uniform_grid_length false xb yb zb _ _ _ g2 c2 eq_refl)
    as (fx2 & fy2 & fz2 & Hrun2 & Hlx2 & Hly2 & Hlz2 & Hent2); [done|].
  unfold schedule_draws in Hrun1, Hrun2. rewrite Nat.add_0_r in Hrun1, Hrun2.
  exists fx1, fy1, fz1. split; [exact Hrun1|]. rewrite Hrun2.
  unfold period in *.
  assert (Heq : ∀ t,
            fx2 !! t = fx1 !! t ∧ fy2 !! t = fy1 !! t ∧ fz2 !! t = fz1 !! t).
  { intros t. destruct (decide (t < xb.2 * yb.2 * zb.2)%nat) as [Ht|Ht].
    - destruct (Hent1 t Ht) as (x & y & z & Hx & Hy & Hz & H1 & H2 & H3).
      destruct (Hent2 t Ht) as (x' & y' & z' & Hx' & Hy' & Hz' & H1' & H2' & H3').
      unfold perturbed in *. rewrite H1, H2, H3, H1', H2', H3'.
      repeat split; congruence.
    - rewrite !lookup_ge_None_2 by lia. done. }
  assert (fx2 = fx1) as -> by (apply list_eq; intros t; apply (Heq t)).
  assert (fy2 = fy1) as -> by (apply list_eq; intros t; apply (Heq t)).
  assert (fz2 = fz1) as -> by (apply list_eq; intros t; apply (Heq t)).
  done.
Qed.

(** With perturbation the three arrays have a hundred entries per base
    point, and every stored value stays within half a grid spacing of the
    base value of its index. *)
Theorem perturbation_within_half_spacing (xb yb zb : SawyerAssembly.bounds) g c :
  valid_rng g →
  (xb.2 * yb.2 * zb.2)%nat ≠ 0%nat →
  xb.1.1 <= xb.1.2 → yb.1.1 <= yb.1.2 → zb.1.1 <= zb.1.2 →
  ∃ fx fy fz,
    SawyerAssembly.placement_schedule range_to_uniform_grid true (xb, yb, zb) g c
    = (Ok (fx, fy, fz), (c + 3 * (xb.2 * yb.2 * zb.2 * 100))%nat)
    ∧ length fx = (xb.2 * yb.2 * zb.2 * 100)%nat
    ∧ length fy = (xb.2 * yb.2 * zb.2 * 100)%nat
    ∧ length fz = (xb.2 * yb.2 * zb.2 * 100)%nat
    ∧ ∀ t, (t < xb.2 * yb.2 * zb.2 * 100)%nat →
        ∃ x y z ex ey ez,
          (np.meshgrid_ravel
             (range_to_uniform_grid xb.1.1 xb.1.2 xb.2)
             (range_to_uniform_grid yb.1.1 yb.1.2 yb.2)
             (range_to_uniform_grid zb.1.1 zb.1.2 zb.2)).1.1
            !! (t mod (xb.2 * yb.2 * zb.2))%nat = Some x
          ∧ (np.meshgrid_ravel
               (range_to_uniform_grid xb.1.1 xb.1.2 xb.2)
               (range_to_uniform_grid yb.1.1 yb.1.2 yb.2)
               (range_to_uniform_grid zb.1.1 zb.1.2 zb.2)).1.2
              !! (t mod (xb.2 * yb.2 * zb.2))%nat = Some y
          ∧ (np.meshgrid_ravel
               (range_to_uniform_grid xb.1.1 xb.1.2 xb.2)
               (range_to_uniform_grid yb.1.1 yb.1.2 yb.2)
               (range_to_uniform_grid zb.1.1 zb.1.2 zb.2)).2
              !! (t mod (xb.2 * yb.2 * zb.2))%nat = Some z
          ∧ fx !! t = Some ex
          ∧ fy !! t = Some ey
          ∧ fz !! t = Some ez
          ∧ Rabs (ex - x) <= half_spacing xb
          ∧ Rabs (ey - y) <= half_spacing yb
          ∧ Rabs (ez - z) <= half_spacing zb.
Proof.
  intros Hg HL Hxb Hyb Hzb.
  destruct (placement_schedule_product range_to_uniform_grid
              range_to_uniform_grid_length true xb yb zb _ _ _ g c eq_refl)
    as (fx & fy & fz & Hrun & Hlx & Hly & Hlz & Hent); [done|].
  exists fx, fy, fz. split; [exact Hrun|]. split; [exact Hlx|].
  split; [exact Hly|]. split; [exact Hlz|].
  intros t Ht. destruct (Hent t Ht) as (x & y & z & Hx & Hy & Hz & H1 & H2 & H3).
  assert (Hhalf : ∀ b : SawyerAssembly.bounds,
            b.2 ≠ 0%nat → b.1.1 <= b.1.2 → 0 <= half_spacing b).
  { intros [[lo hi] n] Hn Hle. cbn [fst snd] in *. unfold half_spacing.
    cbn [fst snd]. assert (0 < INR n) by (apply lt_0_INR; lia).
    apply Rmult_le_pos; [|lra].
    apply Rmult_le_pos; [lra|]. left. by apply Rinv_0_lt_compat. }
  assert (Hnear : ∀ s base u, 0 <= s → 0 <= u < 1 →
            Rabs (perturbed true s base u - base) <= s).
  { intros s base u Hs Hu. unfold perturbed. apply Rabs_le. split; nra. }
  exists x, y, z. do 3 eexists.
  split; [exact Hx|]. split; [exact Hy|]. split; [exact Hz|].
  split; [exact H1|]. split; [exact H2|]. split; [exact H3|].
  split; [|split]; apply Hnear; try apply Hg; apply Hhalf; try done; lia.
Qed.

End ScheduleMore.

(** The method of the evaluation mode has no normal exit.  With the mode
    off the assertion fails before anything is computed.  With the mode on
    the three arrays are computed, the draws of the perturbation are
    consumed, and the unbound name [RoundRobinSampler] raises [NameError]:
    no placement initializer is ever assigned. *)
Theorem eval_mode_initializer_raises (grid : R → R → nat → list R) self g c :
  let base :=
    np.meshgrid_ravel (grid (-0.3) 0.2 3%nat) (grid (-0.3) 0.2 3%nat)
      (grid 0 (2 * PI) 3%nat) in
  SawyerAssembly._get_placement_initializer_for_eval_mode grid self g c
  = if SawyerAssembly.eval_mode self
    then (Raise (NameError "RoundRobinSampler"),
          (c + schedule_draws (SawyerAssembly.perturb_evals self)
                 (length base.1.1))%nat)
    else (Raise AssertionError, c).
Proof.
  intros base. subst base.
  unfold SawyerAssembly._get_placement_initializer_for_eval_mode.
  destruct (SawyerAssembly.eval_mode self); [|reflexivity].
  unfold SawyerAssembly._grid_bounds_for_eval_mode. cbv zeta.
  destruct (np.meshgrid_ravel _ _ _) as [[X Y] Z] eqn:Hmesh. cbn [fst].
  destruct (placement_schedule_run grid (SawyerAssembly.perturb_evals self)
              (-0.3, 0.2, 3%nat) (-0.3, 0.2, 3%nat) (0, 2 * PI, 3%nat) X Y Z g c Hmesh)
    as (fx & fy & fz & Hrun & _); [by intros _; cbn [snd]|].
  by rewrite (bind_ok _ _ _ _ _ _ Hrun).
Qed.

(** The statement at work: on a 2 x 2 x 1 grid the combination of the
    second x and the second y is entry 3. *)
Lemma schedule_covers_product_witness :
  (∀ a b n, length (Examples.even_grid a b n) = n)
  ∧ ∃ fx fy fz xi yj zk,
      Examples.even_grid 0 1 2 !! 1%nat = Some xi
      ∧ Examples.even_grid 0 1 2 !! 1%nat = Some yj
      ∧ Examples.even_grid 0 1 1 !! 0%nat = Some zk
      ∧ SawyerAssembly.placement_schedule Examples.even_grid false
          ((0, 1, 2%nat), (0, 1, 2%nat), (0, 1, 1%nat)) Examples.g_zero 0%nat
        = (Ok (fx, fy, fz), 0%nat)
      ∧ fx !! 3%nat = Some xi
      ∧ fy !! 3%nat = Some yj
      ∧ fz !! 3%nat = Some zk.
Proof.
  split; [exact even_grid_length|].
  destruct (schedule_covers_product Examples.even_grid even_grid_length
              (0, 1, 2%nat) (0, 1, 2%nat) (0, 1, 1%nat) Examples.g_zero 0%nat
              1%nat 1%nat 0%nat _ _ _ eq_refl eq_refl eq_refl)
    as (fx & fy & fz & t & Hrun & -> & _ & H1 & H2 & H3).
  exists fx, fy, fz. do 3 eexists.
  split; [reflexivity|]. split; [reflexivity|]. split; [reflexivity|].
  split; [exact Hrun|]. split; [exact H1|]. split; [exact H2 | exact H3].
Defined.

(** The statement at work: two different random streams, one schedule. *)
Lemma unperturbed_schedule_ignores_rng_witness :
  (∀ a b n, length (Examples.even_grid a b n) = n)
  ∧ ∃ fx fy fz,
      SawyerAssembly.placement_schedule Examples.even_grid false
        ((-0.3, 0.2, 3%nat), (-0.3, 0.2, 3%nat), (0, 2 * PI, 3%nat))
        Examples.g_zero 0%nat = (Ok (fx, fy, fz), 0%nat)
      ∧ SawyerAssembly.placement_schedule Examples.even_grid false
          ((-0.3, 0.2, 3%nat), (-0.3, 0.2, 3%nat), (0, 2 * PI, 3%nat))
          Examples.g_far 7%nat = (Ok (fx, fy, fz), 7%nat).
Proof.
  split; [exact even_grid_length|].
  exact (unperturbed_schedule_ignores_rng Examples.even_grid even_grid_length
           (-0.3, 0.2, 3%nat) (-0.3, 0.2, 3%nat) (0, 2 * PI, 3%nat)
           Examples.g_zero 0%nat Examples.g_far 7%nat).
Defined.

(** The statement at work on the bounds of the evaluation mode. *)
Lemma perturbation_within_half_spacing_witness :
  (∀ a b n, length (Examples.even_grid a b n) = n)
  ∧ valid_rng Examples.g_zero
  ∧ -0.3 <= 0.2 ∧ 0 <= 2 * PI
  ∧ ∃ fx fy fz,
      SawyerAssembly.placement_schedule Examples.even_grid true
        ((-0.3, 0.2, 3%nat), (-0.3, 0.2, 3%nat), (0, 2 * PI, 3%nat))
        Examples.g_zero 0%nat = (Ok (fx, fy, fz), (0 + 3 * (3 * 3 * 3 * 100))%nat)
      ∧ length fx = (3 * 3 * 3 * 100)%nat.
Proof.
  assert (H1 : -0.3 <= 0.2) by lra.
  assert (H2 : 0 <= 2 * PI) by (pose proof PI_RGT_0; lra).
  split; [exact even_grid_length|]. split; [exact g_zero_valid|].
  split; [exact H1|]. split; [exact H2|].
  destruct (perturbation_within_half_spacing Examples.even_grid even_grid_length
              (-0.3, 0.2, 3%nat) (-0.3, 0.2, 3%nat) (0, 2 * PI, 3%nat)
              Examples.g_zero 0%nat g_zero_valid)
    as (fx & fy & fz & Hrun & Hlen & _);
    [cbn [fst snd]; lia | exact H1 | exact H1 | exact H2 |].
  exists fx, fy, fz. split; [exact Hrun | exact Hlen].
Defined.

(** ** [_check_contact] *)

(** [_check_contact] is true exactly when one of the first [ncon] entries
    of the contact buffer has a gripper contact geom on either side;
    entries from [ncon] on and geoms without a name never count. *)
Theorem check_contact_iff geom_id2name contact_geoms contact ncon :
  SawyerAssembly._check_contact geom_id2name contact_geoms contact ncon = true ↔
  ∃ i c n,
    (i < ncon)%nat ∧ contact !! i = Some c ∧ n ∈ contact_geoms
    ∧ (geom_id2name (SawyerAssembly.geom1 c) = Some n
       ∨ geom_id2name (SawyerAssembly.geom2 c) = Some n).
Proof.
  unfold SawyerAssembly._check_contact.
  assert (Hname : ∀ o, SawyerAssembly.name_in o contact_geoms = true ↔
                       ∃ n, o = Some n ∧ n ∈ contact_geoms).
  { intros [n|]; cbn.
    - rewrite bool_decide_eq_true. split; [by exists n|]. by intros (? & [= <-] & ?).
    - split; [done|]. by intros (? & ? & ?). }
  assert (Hloop : ∀ cs,
            SawyerAssembly.contact_loop geom_id2name contact_geoms cs = true ↔
            ∃ i c n, cs !! i = Some c ∧ n ∈ contact_geoms
              ∧ (geom_id2name (SawyerAssembly.geom1 c) = Some n
                 ∨ geom_id2name (SawyerAssembly.geom2 c) = Some n)).
  { induction cs as [|c cs IH]; cbn [SawyerAssembly.contact_loop].
    - split; [done|]. intros (i & c & n & Hi & _). by rewrite lookup_nil in Hi.
    - destruct (SawyerAssembly.name_in (geom_id2name (SawyerAssembly.geom1 c)) _
                || SawyerAssembly.name_in (geom_id2name (SawyerAssembly.geom2 c)) _)
        eqn:Hc.
      + split; [|done]. intros _.
        apply orb_true_iff in Hc as [Hc|Hc]; apply Hname in Hc as (n & Hn & Hin);
          exists 0%nat, c, n; eauto.
      + rewrite IH. apply orb_false_iff in Hc as [H1 H2]. split.
        * intros (i & c' & n & Hi & Hin & Hor). exists (S i), c', n. eauto.
        * intros ([|i] & c' & n & Hi & Hin & Hor).
          -- injection Hi as <-. exfalso. destruct Hor as [Hor|Hor].
             ++ assert (SawyerAssembly.name_in (geom_id2name (SawyerAssembly.geom1 c))
                          contact_geoms = true) by (apply Hname; eauto).
                congruence.
             ++ assert (SawyerAssembly.name_in (geom_id2name (SawyerAssembly.geom2 c))
                          contact_geoms = true) by (apply Hname; eauto).
                congruence.
          -- exists i, c', n. eauto. }
  rewrite Hloop. split.
  - intros (i & c & n & Hi & Hin & Hor).
    apply lookup_take_Some in Hi as [Hi Hlt]. exists i, c, n. eauto.
  - intros (i & c & n & Hlt & Hi & Hin & Hor). exists i, c, n.
    split; [|done]. apply lookup_take_Some. eauto.
Qed.

(** Two entries of the contact buffer, the second between the floor and a
    finger link: it counts only when [ncon] reaches it. *)
Example check_contact_ncon :
  SawyerAssembly._check_contact Examples.geom_names
    RobotiqThreeFingerGripper.contact_geoms
    [ {| SawyerAssembly.geom1 := 0; SawyerAssembly.geom2 := 3 |};
      {| SawyerAssembly.geom1 := 0; SawyerAssembly.geom2 := 2 |} ] 1 = false
  ∧ SawyerAssembly._check_contact Examples.geom_names
      RobotiqThreeFingerGripper.contact_geoms
      [ {| SawyerAssembly.geom1 := 0; SawyerAssembly.geom2 := 3 |};
        {| SawyerAssembly.geom1 := 0; SawyerAssembly.geom2 := 2 |} ] 2 = true.
Proof. split; vm_compute; reflexivity. Qed.

(** ** [RobotiqThreeFingerGripper.format_action] *)

Lemma negated_ones_times (l : list R) :
  zip_with Rmult ((λ x, -1 * x) <$> replicate (length l) 1) l = Ropp <$> l.
Proof.
  induction l as [|a l IH]; [done|].
  cbn [length replicate fmap list_fmap zip_with]. f_equal; [lra | exact IH].
Qed.

Lemma negated_ones_scaled n a :
  (λ x, x * a) <$> ((λ x, -1 * x) <$> replicate n 1) = replicate n (- a).
Proof.
  induction n as [|n IH]; [done|].
  cbn [replicate fmap list_fmap]. f_equal; [lra | exact IH].
Qed.

(** The one-dof variant drives all eleven joints with the negated action:
    a float, or an array of one element, is repeated on every joint; an
    array of eleven is negated element by element; any other length is an
    error.  The result always has one entry per joint, and formatting the
    result again gives the action back. *)
Theorem format_action_negates :
  (∀ a, RobotiqThreeFingerGripper.format_action (RobotiqThreeFingerGripper.Scalar a)
        = RobotiqThreeFingerGripper.Broadcast (replicate 11 (- a)))
  ∧ (∀ a, RobotiqThreeFingerGripper.format_action
            (RobotiqThreeFingerGripper.Array1 [a])
          = RobotiqThreeFingerGripper.Broadcast (replicate 11 (- a)))
  ∧ (∀ l, length l = 11%nat →
          RobotiqThreeFingerGripper.format_action
            (RobotiqThreeFingerGripper.Array1 l)
          = RobotiqThreeFingerGripper.Broadcast (Ropp <$> l))
  ∧ (∀ l, length l ≠ 11%nat → length l ≠ 1%nat →
          RobotiqThreeFingerGripper.format_action
            (RobotiqThreeFingerGripper.Array1 l)
          = RobotiqThreeFingerGripper.ValueError)
  ∧ (∀ act out,
       RobotiqThreeFingerGripper.format_action act
       = RobotiqThreeFingerGripper.Broadcast out →
       length out = RobotiqThreeFingerGripper.dof
       ∧ length out = length RobotiqThreeFingerGripper.joints
       ∧ length out = length RobotiqThreeFingerGripper.init_qpos)
  ∧ (∀ l out,
       length l = 11%nat →
       RobotiqThreeFingerGripper.format_action
         (RobotiqThreeFingerGripper.Array1 l)
       = RobotiqThreeFingerGripper.Broadcast out →
       RobotiqThreeFingerGripper.format_action
         (RobotiqThreeFingerGripper.Array1 out)
       = RobotiqThreeFingerGripper.Broadcast l).
Proof.
  assert (Hscalar : ∀ a,
            RobotiqThreeFingerGripper.format_action
              (RobotiqThreeFingerGripper.Scalar a)
            = RobotiqThreeFingerGripper.Broadcast (replicate 11 (- a))).
  { intros a. unfold RobotiqThreeFingerGripper.format_action,
      RobotiqThreeFingerGripper.multiply. by rewrite negated_ones_scaled. }
  assert (Hone : ∀ a,
            RobotiqThreeFingerGripper.format_action
              (RobotiqThreeFingerGripper.Array1 [a])
            = RobotiqThreeFingerGripper.Broadcast (replicate 11 (- a))).
  { intros a. unfold RobotiqThreeFingerGripper.format_action,
      RobotiqThreeFingerGripper.multiply.
    change (length ((λ x : R, -1 * x) <$> replicate 11 1)) with 11%nat. cbn [length head default from_option
      Datatypes.id]. rewrite decide_False by lia. rewrite decide_True by done.
    by rewrite negated_ones_scaled. }
  assert (Hfull : ∀ l, length l = 11%nat →
            RobotiqThreeFingerGripper.format_action
              (RobotiqThreeFingerGripper.Array1 l)
            = RobotiqThreeFingerGripper.Broadcast (Ropp <$> l)).
  { intros l Hl. unfold RobotiqThreeFingerGripper.format_action,
      RobotiqThreeFingerGripper.multiply.
    change (length ((λ x : R, -1 * x) <$> replicate 11 1)) with 11%nat. rewrite decide_True by done.
    rewrite <- Hl. by rewrite negated_ones_times. }
  assert (Hbad : ∀ l, length l ≠ 11%nat → length l ≠ 1%nat →
            RobotiqThreeFingerGripper.format_action
              (RobotiqThreeFingerGripper.Array1 l)
            = RobotiqThreeFingerGripper.ValueError).
  { intros l H11 H1. unfold RobotiqThreeFingerGripper.format_action,
      RobotiqThreeFingerGripper.multiply.
    change (length ((λ x : R, -1 * x) <$> replicate 11 1)) with 11%nat.
    rewrite decide_False by done. rewrite decide_False by done.
    by rewrite decide_False by lia. }
  split; [exact Hscalar|]. split; [exact Hone|]. split; [exact Hfull|].
  split; [exact Hbad|]. split.
  - intros [a|l] out H.
    + rewrite Hscalar in H. injection H as <-.
      rewrite ?length_replicate. repeat split.
    + destruct (decide (length l = 11%nat)) as [H11|H11].
      * rewrite (Hfull l H11) in H. injection H as <-.
        rewrite length_fmap, H11. repeat split.
      * destruct (decide (length l = 1%nat)) as [H1|H1].
        -- destruct l as [|a [|b l]]; try discriminate.
           rewrite Hone in H. injection H as <-.
           rewrite ?length_replicate. repeat split.
        -- by rewrite (Hbad l H11 H1) in H.
  - intros l out Hl H. rewrite (Hfull l Hl) in H. injection H as <-.
    rewrite Hfull by (by rewrite length_fmap). f_equal.
    rewrite <- list_fmap_compose. rewrite <- (list_fmap_id l) at 2.
    apply list_fmap_ext. intros i x _. cbn. lra.
Qed.

(** ** [lego_sample] *)

Lemma MI_bind_randint {B} a b (k : nat → SawyerAssembly.MI B) s c :
  (x ← SawyerAssembly.randint a b; k x) s c = k (s c) s (S c).
Proof. reflexivity. Qed.

Lemma MI_bind_lift {A B} (r : result A) a (k : A → SawyerAssembly.MI B) s c :
  r = Ok a → (x ← SawyerAssembly.lift r; k x) s c = k a s c.
Proof. by intros ->. Qed.

(** For offsets that leave room for three cells, the loops write the hole
    and nothing else. *)
Lemma cut_hole_window a1 a2 a3 b1 b2 b3 ox oy :
  (ox ≤ 5)%nat → (oy ≤ 5)%nat →
  SawyerAssembly.cut_hole [[[a1; a2; a3]; [0; 0; 0]; [b1; b2; b3]]]
    (np.ones3 1 8 8) ox oy
  = Ok [window_grid [[a1; a2; a3]; [0; 0; 0]; [b1; b2; b3]] ox oy].
Proof.
  intros Hx Hy.
  destruct ox as [|[|[|[|[|[|ox]]]]]]; try lia;
    destruct oy as [|[|[|[|[|[|oy]]]]]]; try lia; reflexivity.
Qed.

(** Each side of a block comes with the hole row that fits it: the hole is
    open (0) where the side has material (1) and filled where it has none. *)
Lemma table_rows p :
  (p ≤ 3)%nat →
  ∃ s1 s2 s3 h1 h2 h3,
    block_sides !! p = Some [s1; s2; s3]
    ∧ hole_sides !! p = Some [h1; h2; h3]
    ∧ ((s1 = 1 ∧ h1 = 0) ∨ (s1 = 0 ∧ h1 <> 0))
    ∧ ((s2 = 1 ∧ h2 = 0) ∨ (s2 = 0 ∧ h2 <> 0))
    ∧ ((s3 = 1 ∧ h3 = 0) ∨ (s3 = 0 ∧ h3 <> 0)).
Proof.
  intros Hp. destruct p as [|[|[|[|p]]]]; try lia;
    do 6 eexists; (split; [reflexivity|]); (split; [reflexivity|]);
    repeat split; first [left; split; lra | right; split; lra].
Qed.

(** The run of [lego_sample] on draws in the ranges it asks for. *)
Lemma lego_sample_run s c :
  valid_lego_draws s c →
  ∃ s1 s2 s3 a1 a2 a3 t1 t2 t3 b1 b2 b3,
    block_sides !! s c = Some [s1; s2; s3]
    ∧ hole_sides !! s c = Some [a1; a2; a3]
    ∧ block_sides !! s (1 + c)%nat = Some [t1; t2; t3]
    ∧ hole_sides !! s (1 + c)%nat = Some [b1; b2; b3]
    ∧ ((s1 = 1 ∧ a1 = 0) ∨ (s1 = 0 ∧ a1 <> 0))
    ∧ ((s2 = 1 ∧ a2 = 0) ∨ (s2 = 0 ∧ a2 <> 0))
    ∧ ((s3 = 1 ∧ a3 = 0) ∨ (s3 = 0 ∧ a3 <> 0))
    ∧ ((t1 = 1 ∧ b1 = 0) ∨ (t1 = 0 ∧ b1 <> 0))
    ∧ ((t2 = 1 ∧ b2 = 0) ∨ (t2 = 0 ∧ b2 <> 0))
    ∧ ((t3 = 1 ∧ b3 = 0) ∨ (t3 = 0 ∧ b3 <> 0))
    ∧ SawyerAssembly.lego_sample s c
      = (Ok ([ [[s1; s2; s3]; [1; 1; 1]; [t1; t2; t3]];
               [[0; 0; 0]; [0.9; 0.9; 0.9]; [0; 0; 0]];
               [[0; 0; 0]; [0.9; 0.9; 0.9]; [0; 0; 0]] ],
             [ [[1; 1; 1]; [0; 0; 0]; [1; 1; 1]];
               [[1; 1; 1]; [0; 0; 0]; [1; 1; 1]];
               [[1; 1; 1]; [1; 1; 1]; [1; 1; 1]];
               [[0; 0; 0]; [0; 1; 0]; [0; 0; 0]] ],
             np.rot90
               [window_grid [[a1; a2; a3]; [0; 0; 0]; [b1; b2; b3]]
                  (s (2 + c)%nat) (s (3 + c)%nat)]
               (s (4 + c)%nat)),
         (5 + c)%nat).
Proof.
  intros (H1 & H2 & Hox & Hoy & _). cbn [Nat.add] in *.
  destruct (table_rows _ H1)
    as (s1 & s2 & s3 & a1 & a2 & a3 & Hb1 & Hh1 & Hc1 & Hc2 & Hc3).
  destruct (table_rows _ H2)
    as (t1 & t2 & t3 & b1 & b2 & b3 & Hb2 & Hh2 & Hd1 & Hd2 & Hd3).
  exists s1, s2, s3, a1, a2, a3, t1, t2, t3, b1, b2, b3.
  do 10 (split; [done|]).
  unfold block_sides in Hb1, Hb2. unfold hole_sides in Hh1, Hh2.
  unfold SawyerAssembly.lego_sample. cbv zeta.
  rewrite MI_bind_randint.
  rewrite (MI_bind_lift _ [s1; s2; s3])
    by (unfold SawyerAssembly.index; by rewrite Hb1).
  rewrite (MI_bind_lift _ [a1; a2; a3])
    by (unfold SawyerAssembly.index; by rewrite Hh1).
  rewrite MI_bind_randint.
  rewrite (MI_bind_lift _ [t1; t2; t3])
    by (unfold SawyerAssembly.index; by rewrite Hb2).
  rewrite (MI_bind_lift _ [b1; b2; b3])
    by (unfold SawyerAssembly.index; by rewrite Hh2).
  rewrite !MI_bind_randint.
  rewrite (MI_bind_lift _
             [window_grid [[a1; a2; a3]; [0; 0; 0]; [b1; b2; b3]]
                (s (S (S c))) (s (S (S (S c))))])
    by (apply cut_hole_window; lia).
  rewrite MI_bind_randint. reflexivity.
Qed.

(** With draws in the ranges it asks for, [lego_sample] raises nothing and
    takes five values from the stream.  The first block is the fixed
    pattern with rows 0 and 2 of its top layer replaced by the two picked
    sides; the second block is fixed; the grid is the plane of ones with
    the hole rows of the two picks, and a row of zeros between them, written
    at the drawn offsets, turned by the drawn number of quarter turns. *)
Theorem lego_sample_returns s c :
  valid_lego_draws s c →
  ∃ side1 side2 hole1 hole2,
    block_sides !! s c = Some side1 ∧ hole_sides !! s c = Some hole1
    ∧ block_sides !! s (1 + c)%nat = Some side2
    ∧ hole_sides !! s (1 + c)%nat = Some hole2
    ∧ SawyerAssembly.lego_sample s c
      = (Ok ([ [side1; [1; 1; 1]; side2];
               [[0; 0; 0]; [0.9; 0.9; 0.9]; [0; 0; 0]];
               [[0; 0; 0]; [0.9; 0.9; 0.9]; [0; 0; 0]] ],
             [ [[1; 1; 1]; [0; 0; 0]; [1; 1; 1]];
               [[1; 1; 1]; [0; 0; 0]; [1; 1; 1]];
               [[1; 1; 1]; [1; 1; 1]; [1; 1; 1]];
               [[0; 0; 0]; [0; 1; 0]; [0; 0; 0]] ],
             np.rot90
               [window_grid [hole1; [0; 0; 0]; hole2]
                  (s (2 + c)%nat) (s (3 + c)%nat)]
               (s (4 + c)%nat)),
         (5 + c)%nat).
Proof.
  intros Hv.
  destruct (lego_sample_run s c Hv)
    as (s1 & s2 & s3 & a1 & a2 & a3 & t1 & t2 & t3 & b1 & b2 & b3
        & Hb1 & Hh1 & Hb2 & Hh2 & _ & _ & _ & _ & _ & _ & Hrun).
  exists [s1; s2; s3], [t1; t2; t3], [a1; a2; a3], [b1; b2; b3].
  repeat split; done.
Qed.

(** The statement at work: sides 1 and 3, the hole at column 2 and row 5. *)
Lemma lego_sample_returns_witness :
  valid_lego_draws Examples.lego_draws 0
  ∧ ∃ block1 block2 grid,
      SawyerAssembly.lego_sample Examples.lego_draws 0%nat
      = (Ok (block1, block2, grid), 5%nat)
      ∧ block1 !! 0%nat = Some [[1; 0; 1]; [1; 1; 1]; [1; 0; 0]].
Proof.
  assert (Hv : valid_lego_draws Examples.lego_draws 0).
  { unfold valid_lego_draws. cbn. lia. }
  split; [exact Hv|].
  destruct (lego_sample_returns Examples.lego_draws 0%nat Hv)
    as (side1 & side2 & hole1 & hole2 & Hs1 & _ & Hs2 & _ & Hrun).
  cbn in Hs1, Hs2. injection Hs1 as <-. injection Hs2 as <-.
  do 3 eexists. split; [exact Hrun | reflexivity].
Defined.

Lemma window_grid_lookup hole ox oy Y X :
  (Y < 8)%nat → (X < 8)%nat →
  ∃ row,
    window_grid hole ox oy !! Y = Some row
    ∧ row !! X
      = Some (if (oy <=? Y)%nat && (Y <? oy + 3)%nat
                 && (ox <=? X)%nat && (X <? ox + 3)%nat
              then default 0 (default [] (hole !! (Y - oy)%nat) !! (X - ox)%nat)
              else 1).
Proof.
  intros HY HX. unfold window_grid. eexists. split.
  - rewrite list_lookup_fmap, lookup_seq_lt by done. reflexivity.
  - cbv beta. rewrite list_lookup_fmap, lookup_seq_lt by done. reflexivity.
Qed.

Lemma window_grid_square hole ox oy : square 8 (window_grid hole ox oy).
Proof.
  unfold square, window_grid. split.
  - by rewrite length_fmap, length_seq.
  - apply Forall_fmap, Forall_forall. intros Y _. unfold compose.
    by rewrite length_fmap, length_seq.
Qed.

Lemma transpose_square n m : square n m → square n (np.transpose m).
Proof.
  intros [Hlen Hrows]. unfold square, np.transpose. split.
  - rewrite length_fmap, length_seq.
    destruct m as [|row m]; [done|]. cbn. by inversion Hrows.
  - apply Forall_fmap, Forall_forall. intros j _. unfold compose.
    by rewrite length_fmap.
Qed.

Lemma rot90_plane_square n m k : square n m → square n (np.rot90_plane m k).
Proof.
  intros Hsq.
  assert (Hrev : ∀ m', square n m' → square n (reverse <$> m')).
  { intros m' [Hlen Hrows]. split; [by rewrite length_fmap|].
    apply Forall_fmap. eapply Forall_impl; [exact Hrows|].
    intros row Hr. unfold compose. by rewrite length_reverse. }
  unfold np.rot90_plane. destruct (k mod 4)%nat as [|[|[|r]]].
  - done.
  - by apply transpose_square, Hrev.
  - apply Hrev. destruct Hsq as [Hlen Hrows].
    split; [by rewrite length_reverse | by apply Forall_reverse].
  - by apply Hrev, transpose_square.
Qed.

(** The hole cut into the grid fits the first block.  Before the final
    rotation the grid is a plane of 8 x 8 cells that are 1 outside a
    window of three rows and three columns; the window lies in rows 1 to 7
    and columns 1 to 6; its first and last rows are open (0) exactly where
    rows 0 and 2 of the block's top layer have material (1), and its
    middle row is open throughout.  The rotated grid is again one plane of
    8 x 8 cells. *)
Theorem lego_hole_fits_block s c :
  valid_lego_draws s c →
  let ox := s (2 + c)%nat in
  let oy := s (3 + c)%nat in
  ∃ block1 block2 grid side1 side2 G0 plane,
    SawyerAssembly.lego_sample s c = (Ok (block1, block2, grid), (5 + c)%nat)
    ∧ block1 !! 0%nat = Some [side1; [1; 1; 1]; side2]
    ∧ grid = np.rot90 [G0] (s (4 + c)%nat)
    ∧ grid = [plane] ∧ square 8 plane ∧ square 8 G0
    ∧ (1 ≤ oy ∧ oy + 2 ≤ 7 ∧ 1 ≤ ox ∧ ox + 2 ≤ 6)%nat
    ∧ (∀ Y X row v,
         G0 !! Y = Some row → row !! X = Some v →
         ¬ (oy ≤ Y < oy + 3 ∧ ox ≤ X < ox + 3)%nat → v = 1)
    ∧ (∀ x sv, side1 !! x = Some sv →
         ∃ row v, G0 !! oy = Some row ∧ row !! (ox + x)%nat = Some v
                  ∧ ((sv = 1 ∧ v = 0) ∨ (sv = 0 ∧ v <> 0)))
    ∧ (∀ x, (x < 3)%nat →
         ∃ row, G0 !! (oy + 1)%nat = Some row ∧ row !! (ox + x)%nat = Some 0)
    ∧ (∀ x sv, side2 !! x = Some sv →
         ∃ row v, G0 !! (oy + 2)%nat = Some row ∧ row !! (ox + x)%nat = Some v
                  ∧ ((sv = 1 ∧ v = 0) ∨ (sv = 0 ∧ v <> 0))).
Proof.
  intros Hv ox oy.
  destruct (lego_sample_run s c Hv)
    as (s1 & s2 & s3 & a1 & a2 & a3 & t1 & t2 & t3 & b1 & b2 & b3
        & _ & _ & _ & _ & Hc1 & Hc2 & Hc3 & Hd1 & Hd2 & Hd3 & Hrun).
  destruct Hv as (_ & _ & Hox & Hoy & _). fold ox in Hox, Hrun. fold oy in Hoy, Hrun.
  set (hole := [[a1; a2; a3]; [0; 0; 0]; [b1; b2; b3]]) in *.
  do 3 eexists. exists [s1; s2; s3], [t1; t2; t3], (window_grid hole ox oy).
  eexists. split; [exact Hrun|]. split; [reflexivity|]. split; [reflexivity|].
  split; [reflexivity|].
  split; [apply rot90_plane_square, window_grid_square|].
  split; [apply window_grid_square|]. split; [lia|].
  assert (Hcell : ∀ y x, (y < 3)%nat → (x < 3)%nat →
            ∃ row, window_grid hole ox oy !! (oy + y)%nat = Some row
                   ∧ row !! (ox + x)%nat
                     = Some (default 0 (default [] (hole !! y) !! x))).
  { intros y x Hy Hx.
    destruct (window_grid_lookup hole ox oy (oy + y) (ox + x)) as (row & Hr & Hc);
      [lia | lia |].
    exists row. split; [exact Hr|]. rewrite Hc.
    replace (oy + y - oy)%nat with y by lia.
    replace (ox + x - ox)%nat with x by lia.
    rewrite (proj2 (Nat.leb_le oy (oy + y))) by lia.
    rewrite (proj2 (Nat.ltb_lt (oy + y) (oy + 3))) by lia.
    rewrite (proj2 (Nat.leb_le ox (ox + x))) by lia.
    rewrite (proj2 (Nat.ltb_lt (ox + x) (ox + 3))) by lia.
    reflexivity. }
  split; [|split; [|split]].
  - intros Y X row v HY HX Hout.
    assert (Y < 8)%nat as HY8.
    { apply lookup_lt_Some in HY. by rewrite (proj1 (window_grid_square _ _ _)) in HY. }
    assert (X < 8)%nat as HX8.
    { apply lookup_lt_Some in HX.
      pose proof (proj2 (window_grid_square hole ox oy)) as Hrows.
      rewrite Forall_lookup in Hrows. by rewrite (Hrows Y row HY) in HX. }
    destruct (window_grid_lookup hole ox oy Y X HY8 HX8) as (row' & Hr & Hc).
    rewrite HY in Hr. injection Hr as <-. rewrite HX in Hc. injection Hc as ->.
    destruct ((oy <=? Y)%nat && (Y <? oy + 3)%nat
              && (ox <=? X)%nat && (X <? ox + 3)%nat) eqn:Hin; [|done].
    exfalso. apply Hout.
    apply andb_true_iff in Hin as [Hin H4]. apply andb_true_iff in Hin as [Hin H3].
    apply andb_true_iff in Hin as [H1 H2].
    apply Nat.leb_le in H1, H3. apply Nat.ltb_lt in H2, H4. lia.
  - intros x sv Hs.
    assert (x < 3)%nat as Hx by (apply lookup_lt_Some in Hs; cbn in Hs; lia).
    destruct (Hcell 0%nat x) as (row & Hr & Hc); [lia | done |].
    rewrite Nat.add_0_r in Hr. exists row. eexists. split; [exact Hr|].
    split; [exact Hc|].
    destruct x as [|[|[|x]]]; try lia; cbn in Hs; injection Hs as <-; cbn; done.
  - intros x Hx.
    destruct (Hcell 1%nat x) as (row & Hr & Hc); [lia | done |].
    exists row. split; [exact Hr|]. rewrite Hc.
    destruct x as [|[|[|x]]]; try lia; reflexivity.
  - intros x sv Hs.
    assert (x < 3)%nat as Hx by (apply lookup_lt_Some in Hs; cbn in Hs; lia).
    destruct (Hcell 2%nat x) as (row & Hr & Hc); [lia | done |].
    exists row. eexists. split; [exact Hr|]. split; [exact Hc|].
    destruct x as [|[|[|x]]]; try lia; cbn in Hs; injection Hs as <-; cbn; done.
Qed.

(** The statement at work: sides 1 and 3, the hole at column 2 and row 5,
    which reaches the last row of the grid. *)
Lemma lego_hole_fits_block_witness :
  valid_lego_draws Examples.lego_draws 0
  ∧ ∃ block1 block2 grid plane,
      SawyerAssembly.lego_sample Examples.lego_draws 0%nat
      = (Ok (block1, block2, grid), 5%nat)
      ∧ grid = [plane] ∧ square 8 plane.
Proof.
  assert (Hv : valid_lego_draws Examples.lego_draws 0).
  { unfold valid_lego_draws. cbn. lia. }
  split; [exact Hv|].
  destruct (lego_hole_fits_block Examples.lego_draws 0%nat Hv)
    as (block1 & block2 & grid & _ & _ & _ & plane & Hrun & _ & _ & Hg & Hsq & _).
  exists block1, block2, grid, plane. split; [exact Hrun|]. split; [exact Hg | exact Hsq].
Defined.
